(** * Tracing interceptors of torch/csrc/autograd/TraceTypeManual.cpp

    A shallow embedding of the five hand-written tracing kernels
    ([copy_], [resize_], [resize_as_], [detach], [detach_]) and of the
    registration block [TORCH_LIBRARY_IMPL(aten, Tracer, m)].

    The C++ code is stateful and may throw; it is embedded in a state and
    exception monad over an explicit [World].  A thrown exception keeps the
    world as it was at the throw point, as C++ does.  The build modelled is
    the default one, in which PYTORCH_DISABLE_TRACING is not defined. *)

From stdpp Require Import gmap strings list fin_maps.
From Stdlib Require Import ZArith.

Set Default Proof Using "Type".

(** ** Runtime values: tensors and their storage *)

(** Modelled from the spec: the numeric-array value type ([at::Tensor],
    [c10::Storage]; not in this file).  A [Tensor] is a handle; its identity
    is the identity of the implementation object it points to, and several
    tensors may view one storage. *)
Abbreviation Tensor := positive (only parsing).
Abbreviation StorageId := positive (only parsing).

Record TensorImpl := mkTensorImpl {
  t_storage : StorageId;
  t_sizes : list Z;
  t_requires_grad : bool
}.

Record Heap := mkHeap {
  tensors : gmap positive TensorImpl;
  storage_data : gmap positive (list Z)
}.

(** Modelled from the spec: the reference count of a storage
    ([Storage::use_count], part of the numeric-array value type that is not
    in this file).  The holders of a storage are the live tensors viewing
    it. *)
Definition use_count (h : Heap) (s : StorageId) : nat :=
  length (filter (λ p : positive * TensorImpl, t_storage p.2 = s)
                 (map_to_list (tensors h))).

(** [self.storage().use_count()]; a handle that is not live has no holder. *)
Definition storage_use_count (h : Heap) (self : Tensor) : nat :=
  match tensors h !! self with
  | Some impl => use_count h (t_storage impl)
  | None => 0
  end.

Inductive MemoryFormat := Contiguous | Preserve | ChannelsLast.

(** Boxed arguments and results of kernels: the values the five operators
    of this file take and return. *)
Inductive IValue :=
  | IVTensor (t : Tensor)
  | IVBool (b : bool)
  | IVIntList (l : list Z)
  | IVMemoryFormat (f : option MemoryFormat)
  | IVNone.

(** ** The trace graph *)

(** The operator symbols this file interns: [jit::aten::expand_as],
    [jit::aten::copy_] and [jit::aten::detach]. *)
Inductive Symbol := aten_expand_as | aten_copy_ | aten_detach.

Abbreviation NodeId := positive (only parsing).

(** Modelled from the spec: a symbolic value is "the array value produced by
    node N, output slot k" or "an input to the trace" ([jit::Value], not in
    this file). *)
Inductive Value :=
  | NodeOutput (n : NodeId) (k : nat)
  | GraphInput (i : nat).

Abbreviation SourceRange := string (only parsing).

(** Modelled from the spec: a trace node "records an operator name, an
    ordered list of input symbolic values (with names), an ordered list of
    output symbolic values, and a source location" ([jit::Node], not in this
    file).  A node that nobody recorded a location on has none. *)
Record Node := mkNode {
  kind : Symbol;
  inputs : list (option string * Value);
  outputs : list Value;
  source_range : option SourceRange
}.

(** Modelled from the spec: the trace graph ([jit::Graph], not in this
    file).  [graph->create] allocates a node the graph owns; only
    [graph->insertNode] commits it to the graph's node list [block]. *)
Record Graph := mkGraph {
  all_nodes : gmap positive Node;
  block : list NodeId;
  next_unique : positive
}.

Inductive WarnKind := WARN_RESIZE | WARN_OTHER.

(** Modelled from the spec: the trace session ([jit::tracer::TracingState],
    not in this file): the graph, the identity map from runtime value
    identity to symbolic value, the prefer-outplace flag, and the warnings
    emitted to the session. *)
Record TracingState := mkTracingState {
  graph : Graph;
  force_outplace : bool;
  value_map : gmap positive Value;
  warnings : list (string * WarnKind)
}.

(** ** The world an interceptor runs in *)

Record World := mkWorld {
  tracing_state : option TracingState;  (* thread-local session, if any *)
  dispatch_enabled : bool;              (* false inside NoTracerDispatchMode *)
  stash : gmap string (list (option Value)); (* ArgumentStash int lists *)
  heap : Heap;
  python_location : SourceRange         (* what recordSourceLocation reads *)
}.

Definition set_tracing_state (s : option TracingState) (w : World) : World :=
  mkWorld s (dispatch_enabled w) (stash w) (heap w) (python_location w).

Definition set_dispatch_enabled (b : bool) (w : World) : World :=
  mkWorld (tracing_state w) b (stash w) (heap w) (python_location w).

Definition set_stash (s : gmap string (list (option Value))) (w : World) : World :=
  mkWorld (tracing_state w) (dispatch_enabled w) s (heap w) (python_location w).

Definition set_heap (h : Heap) (w : World) : World :=
  mkWorld (tracing_state w) (dispatch_enabled w) (stash w) h (python_location w).

(** ** Exceptions and the monad *)

(** The failures of the specification's taxonomy (DuplicateRegistration,
    NoKernelFound, NoActiveSession, UnboundValue) and those of the C++
    runtime the code can meet: an unknown schema, a null pointer, a failed
    internal assertion, a failure of the real kernel. *)
Inductive Error :=
  | DuplicateRegistration
  | NoKernelFound
  | NoActiveSession
  | UnboundValue
  | SchemaNotFound
  | NullPointer
  | InternalAssert
  | KernelFailure (msg : string).

Inductive Result (A : Type) :=
  | Ok (a : A) (w : World)
  | Throw (e : Error) (w : World).
Arguments Ok {A} a w.
Arguments Throw {A} e w.

(** The world in which a computation ends, normally or not. *)
Definition final_world {A} (r : Result A) : World :=
  match r with Ok _ w => w | Throw _ w => w end.

Definition M (A : Type) : Type := World → Result A.

#[global] Instance M_ret : MRet M := λ A a w, Ok a w.
#[global] Instance M_bind : MBind M := λ A B f m w,
  match m w with
  | Ok a w' => f a w'
  | Throw e w' => Throw e w'
  end.

Definition throw {A} (e : Error) : M A := λ w, Throw e w.
Definition get_world : M World := λ w, Ok w w.

(** ** The tracer API used by the interceptors

    None of these functions is in TraceTypeManual.cpp; each is modelled from
    what the specification says about the session accessor, the trace graph
    and the warning sink. *)

(** Modelled from the spec: [jit::tracer::isTracing] is the pure predicate
    "a session is live on this thread". *)
Definition isTracing : M bool := λ w,
  Ok (bool_decide (is_Some (tracing_state w))) w.

(** Modelled from the spec: [jit::tracer::getTracingState] returns the live
    session "or fails with NoActiveSession". *)
Definition getTracingState : M TracingState := λ w,
  match tracing_state w with
  | Some st => Ok st w
  | None => Throw NoActiveSession w
  end.

Definition putTracingState (st : TracingState) : M unit := λ w,
  Ok tt (set_tracing_state (Some st) w).

Definition set_graph (g : Graph) (st : TracingState) : TracingState :=
  mkTracingState g (force_outplace st) (value_map st) (warnings st).

Definition set_value_map (m : gmap positive Value) (st : TracingState) : TracingState :=
  mkTracingState (graph st) (force_outplace st) m (warnings st).

Definition set_warnings (l : list (string * WarnKind)) (st : TracingState) : TracingState :=
  mkTracingState (graph st) (force_outplace st) (value_map st) l.

Definition set_node (n : NodeId) (nd : Node) (g : Graph) : Graph :=
  mkGraph (<[n := nd]> (all_nodes g)) (block g) (next_unique g).

(** The node a pointer designates; a pointer to no node of the graph is an
    internal error. *)
Definition getNode (n : NodeId) : M Node :=
  st ← getTracingState;
  match all_nodes (graph st) !! n with
  | Some nd => mret nd
  | None => throw InternalAssert
  end.

Definition putNode (n : NodeId) (nd : Node) : M unit :=
  st ← getTracingState;
  putTracingState (set_graph (set_node n nd (graph st)) st).

(** Modelled from the spec: [graph->create(kind, num_outputs)] allocates a
    node with the given number of output slots, no input and no source
    location; the node is not yet part of the graph's node list. *)
Definition graph_create (k : Symbol) (num_outputs : nat) : M NodeId :=
  st ← getTracingState;
  let g := graph st in
  let n := next_unique g in
  let nd := mkNode k [] (NodeOutput n <$> seq 0 num_outputs) None in
  putTracingState
    (set_graph (mkGraph (<[n := nd]> (all_nodes g)) (block g) (Pos.succ n)) st);;
  mret n.

(** Modelled from the spec: [graph->insertNode(node)] commits the node at
    the end of the graph's node list. *)
Definition graph_insertNode (n : NodeId) : M unit :=
  st ← getTracingState;
  let g := graph st in
  putTracingState (set_graph (mkGraph (all_nodes g) (block g ++ [n]) (next_unique g)) st).

(** Modelled from the spec: [node->addInput(value)] appends a symbolic
    value, with the name it was recorded under if any, to the ordered inputs
    of the node. *)
Definition node_addInput (n : NodeId) (name : option string) (v : Value) : M unit :=
  nd ← getNode n;
  putNode n (mkNode (kind nd) (inputs nd ++ [(name, v)]) (outputs nd) (source_range nd)).

(** Modelled from the spec: [node->addOutput()] adds a new output slot after
    the existing ones and returns its symbolic value. *)
Definition node_addOutput (n : NodeId) : M Value :=
  nd ← getNode n;
  let v := NodeOutput n (length (outputs nd)) in
  putNode n (mkNode (kind nd) (inputs nd) (outputs nd ++ [v]) (source_range nd));;
  mret v.

(** Modelled from the spec: [node->output()] is the sole output of a node
    that has exactly one. *)
Definition node_output (n : NodeId) : M Value :=
  nd ← getNode n;
  match outputs nd with
  | [v] => mret v
  | _ => throw InternalAssert
  end.

(** Modelled from the spec: [value->node()] is the node producing a
    value. *)
Definition value_node (v : Value) : M NodeId :=
  match v with
  | NodeOutput n _ => mret n
  | GraphInput _ => throw InternalAssert
  end.

(** Modelled from the spec: [jit::tracer::getValueTrace] is [lookup]: it
    "returns the currently bound symbolic value or fails with
    UnboundValue". *)
Definition getValueTrace (t : Tensor) : M Value :=
  st ← getTracingState;
  match value_map st !! t with
  | Some v => mret v
  | None => throw UnboundValue
  end.

(** Modelled from the spec: [jit::tracer::setValueTrace] is [bind]: it
    "overwrites any prior binding" of the identity. *)
Definition setValueTrace (t : Tensor) (v : Value) : M unit :=
  st ← getTracingState;
  putTracingState (set_value_map (<[t := v]> (value_map st)) st).

(** Modelled from the spec: [jit::tracer::delValueTrace] removes "any
    existing binding" of the identity, which becomes unbound. *)
Definition delValueTrace (t : Tensor) : M unit :=
  st ← getTracingState;
  putTracingState (set_value_map (delete t (value_map st)) st).

(** Modelled from the spec: [jit::tracer::addInputs(node, name, tensor)]
    records the symbolic value of the tensor as the next named input. *)
Definition addInputs (n : NodeId) (name : string) (t : Tensor) : M unit :=
  v ← getValueTrace t;
  node_addInput n (Some name) v.

(** Modelled from the spec: [graph->insert(kind, {values})] creates a node
    with one output over the given inputs, commits it and returns its
    output. *)
Definition graph_insert (k : Symbol) (args : list Value) : M Value :=
  n ← graph_create k 1;
  mapM (node_addInput n None) args;;
  graph_insertNode n;;
  node_output n.

(** Modelled from the spec: [jit::tracer::recordSourceLocation(node)] stores
    the current source location on the node. *)
Definition recordSourceLocation (n : NodeId) : M unit :=
  nd ← getNode n;
  w ← get_world;
  putNode n (mkNode (kind nd) (inputs nd) (outputs nd) (Some (python_location w))).

(** Modelled from the spec: [jit::tracer::setOutput(value, tensor)] binds
    the tensor's identity to the value.  The interceptors hold the value in
    a pointer that is null until a session is seen. *)
Definition setOutput (v : option Value) (t : Tensor) : M unit :=
  match v with
  | Some v => setValueTrace t v
  | None => throw NullPointer
  end.

(** Modelled from the spec: [jit::tracer::addOutput(node, tensor)] adds an
    output slot to the node and binds the tensor's identity to it. *)
Definition addOutput (n : option NodeId) (t : Tensor) : M unit :=
  match n with
  | Some n => v ← node_addOutput n; setValueTrace t v
  | None => throw NullPointer
  end.

(** Modelled from the spec: [jit::tracer::warn(name, kind)] is the warning
    sink: one call emits one named warning to the session. *)
Definition warn (name : string) (k : WarnKind) : M unit :=
  st ← getTracingState;
  putTracingState (set_warnings (warnings st ++ [(name, k)]) st).

(** [t] is another live tensor viewing the storage of [self]. *)
Definition is_alias (h : Heap) (self t : Tensor) : Prop :=
  t ≠ self ∧ is_Some (tensors h !! t) ∧
  t_storage <$> tensors h !! t = t_storage <$> tensors h !! self.

#[global] Instance is_alias_dec h self t : Decision (is_alias h self t).
Proof. unfold is_alias. apply _. Defined.

Definition invalidate_aliases (h : Heap) (self : Tensor)
    (m : gmap positive Value) : gmap positive Value :=
  filter (λ p : positive * Value, ¬ is_alias h self p.1) m.

(** Modelled from the spec: [jit::tracer::ensureUniqueIfOutOfPlaced(name,
    tensor)] is the "ensure unique" step: "any stale alias bindings for that
    identity are invalidated".  As its name says it acts only when the
    session prefers out-of-place recording; the bindings it removes are those
    of the other live tensors sharing the tensor's storage. *)
Definition ensureUniqueIfOutOfPlaced (name : string) (t : Tensor) : M unit :=
  st ← getTracingState;
  w ← get_world;
  if force_outplace st
  then putTracingState (set_value_map (invalidate_aliases (heap w) t (value_map st)) st)
  else mret tt.

(** Modelled from the spec: [ArgumentStash::popIntArrayRef(name)] takes the
    int list stashed under the name, if any, out of the stash (the stash is
    not described by the specification). *)
Definition popIntArrayRef (name : string) : M (option (list (option Value))) := λ w,
  Ok (stash w !! name) (set_stash (delete name (stash w)) w).

(** ** Dispatcher interface *)

Definition OperatorHandle := (string * string)%type.

(** Modelled from the spec: the capability tags, "a small closed,
    totally-ordered enumeration"; [priority] is the order. *)
Inductive DispatchKey := BackendKey | AutogradKey | Tracer.

#[global] Instance DispatchKey_eq_dec : EqDecision DispatchKey.
Proof. solve_decision. Defined.

Definition priority (k : DispatchKey) : nat :=
  match k with BackendKey => 0 | AutogradKey => 1 | Tracer => 2 end.

(** Modelled from the spec: what an interceptor sees of
    [c10::Dispatcher::singleton()] (not in this file): the lookup in the
    schema registry and the redispatch primitive. *)
Record Dispatcher := mkDispatcher {
  has_schema : string → string → bool;
  redispatch : OperatorHandle → DispatchKey → list IValue → M IValue
}.

(** Modelled from the spec: [findSchemaOrThrow(name, overload)] is the
    handle of the operator with that name and overload, and throws when the
    schema registry has none. *)
Definition findSchemaOrThrow (D : Dispatcher) (name overload : string) : M OperatorHandle :=
  if has_schema D name overload then mret (name, overload) else throw SchemaNotFound.

(** Modelled from the spec: [at::tracer::impl::NoTracerDispatchMode] is the
    scoped tracer-disabled mode, "scoped acquisition/release (guaranteed
    restoration on exceptional exit)": the constructor saves the mode and
    disables tracer dispatch, the destructor restores the saved mode when the
    scope is left, normally or by an exception. *)
Definition NoTracerDispatchMode {A} (body : M A) : M A := λ w,
  let prev_mode := dispatch_enabled w in
  match body (set_dispatch_enabled false w) with
  | Ok a w' => Ok a (set_dispatch_enabled prev_mode w')
  | Throw e w' => Throw e (set_dispatch_enabled prev_mode w')
  end.

(** ** The interceptors (TraceTypeManual.cpp, lines 15-162)

    Each interceptor declares the handle of its operator as a
    function-local static initialised by [findSchemaOrThrow].  The
    definitions below are the body as run by a call that initialises the
    static; [static_call], further down, accounts for the calls that find it
    initialised. *)

Section Interceptors.
Variable D : Dispatcher.

(** [Tensor & copy_(Tensor & self, const Tensor & src, bool non_blocking)] *)
Definition copy_ (self src : Tensor) (non_blocking : bool) : M Tensor :=
  tracing ← isTracing;
  output ← (if tracing : bool then
              state ← getTracingState;
              w ← get_world;
              output ←
                (if force_outplace state && (storage_use_count (heap w) self <=? 1)
                 then
                   node ← graph_create aten_expand_as 1;
                   addInputs node "src" src;;
                   addInputs node "self" self;;
                   graph_insertNode node;;
                   node_output node
                 else
                   vself ← getValueTrace self;
                   vsrc ← getValueTrace src;
                   output ← graph_insert aten_copy_ [vself; vsrc];
                   node ← value_node output;
                   recordSourceLocation node;;
                   mret output);
              ensureUniqueIfOutOfPlaced "copy_ (possibly due to an assignment)" self;;
              mret (Some output)
            else mret None);
  op ← findSchemaOrThrow D "aten::copy_" "";
  NoTracerDispatchMode
    (redispatch D op Tracer [IVTensor self; IVTensor src; IVBool non_blocking]);;
  tracing ← isTracing;
  (if tracing : bool then setOutput output self else mret tt);;
  mret self.

(** [Tensor& resize_(Tensor& self, IntArrayRef size,
    c10::optional<MemoryFormat> optional_memory_format)] *)
Definition resize_ (self : Tensor) (size : list Z)
    (optional_memory_format : option MemoryFormat) : M Tensor :=
  tracing ← isTracing;
  (if tracing : bool then
     popIntArrayRef "size";;
     warn "resize_" WARN_RESIZE;;
     delValueTrace self
   else mret tt);;
  op ← findSchemaOrThrow D "aten::resize_" "";
  NoTracerDispatchMode
    (redispatch D op Tracer
       [IVTensor self; IVIntList size; IVMemoryFormat optional_memory_format]);;
  mret self.

(** [Tensor& resize_as_(Tensor& self, const Tensor& the_template,
    c10::optional<MemoryFormat> optional_memory_format)] *)
Definition resize_as_ (self the_template : Tensor)
    (optional_memory_format : option MemoryFormat) : M Tensor :=
  tracing ← isTracing;
  (if tracing : bool then
     warn "resize_as_" WARN_RESIZE;;
     delValueTrace self
   else mret tt);;
  op ← findSchemaOrThrow D "aten::resize_as_" "";
  NoTracerDispatchMode
    (redispatch D op Tracer
       [IVTensor self; IVTensor the_template; IVMemoryFormat optional_memory_format]);;
  mret self.

(** The typed redispatch of [detach] returns a [Tensor]. *)
Definition toTensor (v : IValue) : M Tensor :=
  match v with
  | IVTensor t => mret t
  | _ => throw InternalAssert
  end.

(** [Tensor detach(const Tensor & self)] *)
Definition detach (self : Tensor) : M Tensor :=
  tracing ← isTracing;
  node ← (if tracing : bool then
            node ← graph_create aten_detach 0;
            recordSourceLocation node;;
            addInputs node "self" self;;
            graph_insertNode node;;
            mret (Some node)
          else mret None);
  op ← findSchemaOrThrow D "aten::detach" "";
  result ← NoTracerDispatchMode
             (r ← redispatch D op Tracer [IVTensor self]; toTensor r);
  tracing ← isTracing;
  (if tracing : bool then addOutput node result else mret tt);;
  mret result.

(** [Tensor & detach_(Tensor & self)] *)
Definition detach_ (self : Tensor) : M Tensor :=
  tracing ← isTracing;
  node ← (if tracing : bool then
            node ← graph_create aten_detach 0;
            recordSourceLocation node;;
            addInputs node "self" self;;
            graph_insertNode node;;
            ensureUniqueIfOutOfPlaced "detach_" self;;
            mret (Some node)
          else mret None);
  op ← findSchemaOrThrow D "aten::detach_" "";
  NoTracerDispatchMode (redispatch D op Tracer [IVTensor self]);;
  tracing ← isTracing;
  (if tracing : bool then addOutput node self else mret tt);;
  mret self.

End Interceptors.

(** ** The capability registry

    The dispatcher itself (c10::Dispatcher, torch::Library) is not in
    TraceTypeManual.cpp; this section follows section 4.1 of the
    specification. *)

(** Modelled from the spec: a kernel, "a callable bound to (Operator
    Identity, Capability Tag)".  It receives the dispatcher it was reached
    through. *)
Definition KernelFunction := Dispatcher → list IValue → M IValue.

(** Modelled from the spec: what [m.impl] binds to an operator and a tag
    ([torch::CppFunction], not in this file): a kernel or the fallthrough
    marker. *)
Inductive CppFunction :=
  | makeFallthrough
  | makeKernel (f : KernelFunction).

Record Registry := mkRegistry {
  schemas : string → string → bool;
  table : OperatorHandle → DispatchKey → option CppFunction
}.

(** Modelled from the spec: [register(operatorId, tag, kernel)] "fails with
    DuplicateRegistration if (operatorId, tag) already bound". *)
Definition register (op : OperatorHandle) (tag : DispatchKey) (f : CppFunction)
    (reg : Registry) : Error + Registry :=
  match table reg op tag with
  | Some _ => inl DuplicateRegistration
  | None =>
      inr (mkRegistry (schemas reg)
             (λ op' tag', if bool_decide (op' = op ∧ tag' = tag)
                          then Some f else table reg op' tag'))
  end.

(** Modelled from the spec: the capability set a call carries, a set of
    tags. *)
Definition DispatchKeySet := DispatchKey → bool.

Definition full_set : DispatchKeySet := λ _, true.

(** All tags, highest priority first. *)
Definition all_keys : list DispatchKey := [Tracer; AutogradKey; BackendKey].

(** Modelled from the spec: the resolution of a call among the candidate
    tags [cands] (highest priority first): "the highest-priority tag present
    in the capability set with a registered kernel wins"; a fallthrough
    "performs redispatch immediately with no side effect"; while the
    tracer-disabled mode is active the call "skips the tracing capability
    entirely regardless of the capability set passed in"; the call "fails
    with NoKernelFound if no tag matches".  The kernel that runs can
    redispatch from its own tag, which resolves among the tags below it. *)
Fixpoint dispatch_in (reg : Registry) (ks : DispatchKeySet)
    (cands : list DispatchKey) (op : OperatorHandle) (args : list IValue) : M IValue :=
  match cands with
  | [] => throw NoKernelFound
  | k :: lower => λ w,
      if ks k && (negb (bool_decide (k = Tracer)) || dispatch_enabled w) then
        match table reg op k with
        | Some (makeKernel f) =>
            f (mkDispatcher (schemas reg)
                 (λ op' k' args',
                    if bool_decide (k' = k)
                    then dispatch_in reg ks lower op' args'
                    else throw InternalAssert))
              args w
        | Some makeFallthrough => dispatch_in reg ks lower op args w
        | None => dispatch_in reg ks lower op args w
        end
      else dispatch_in reg ks lower op args w
  end.

(** Modelled from the spec: [dispatch(operatorId, activeCapabilities,
    args...)]. *)
Definition dispatch (reg : Registry) (op : OperatorHandle) (ks : DispatchKeySet)
    (args : list IValue) : M IValue :=
  dispatch_in reg ks all_keys op args.

(** The dispatcher [dispatch] hands to the kernel registered under
    [Tracer]. *)
Definition tracer_dispatcher (reg : Registry) (ks : DispatchKeySet) : Dispatcher :=
  mkDispatcher (schemas reg)
    (λ op' k' args',
       if bool_decide (k' = Tracer)
       then dispatch_in reg ks [AutogradKey; BackendKey] op' args'
       else throw InternalAssert).

(** ** The registration block (TraceTypeManual.cpp, lines 164-180) *)

#[global] Instance M_fmap : FMap M := λ A B f m w,
  match m w with
  | Ok a w' => Ok (f a) w'
  | Throw e w' => Throw e w'
  end.

(** The unboxing wrappers [impl_UNBOXED] and [TORCH_FN] put around the
    typed interceptors. *)
Definition boxed_copy_ : KernelFunction := λ D args,
  match args with
  | [IVTensor self; IVTensor src; IVBool non_blocking] =>
      IVTensor <$> copy_ D self src non_blocking
  | _ => throw InternalAssert
  end.

Definition boxed_resize_ : KernelFunction := λ D args,
  match args with
  | [IVTensor self; IVIntList size; IVMemoryFormat f] =>
      IVTensor <$> resize_ D self size f
  | _ => throw InternalAssert
  end.

Definition boxed_resize_as_ : KernelFunction := λ D args,
  match args with
  | [IVTensor self; IVTensor the_template; IVMemoryFormat f] =>
      IVTensor <$> resize_as_ D self the_template f
  | _ => throw InternalAssert
  end.

Definition boxed_detach : KernelFunction := λ D args,
  match args with
  | [IVTensor self] => IVTensor <$> detach D self
  | _ => throw InternalAssert
  end.

Definition boxed_detach_ : KernelFunction := λ D args,
  match args with
  | [IVTensor self] => IVTensor <$> detach_ D self
  | _ => throw InternalAssert
  end.

(** [m.impl(name, f)] inside [TORCH_LIBRARY_IMPL(ns, k, m)]; the first
    failure aborts the block. *)
Definition m_impl (ns : string) (k : DispatchKey) (name : string) (f : CppFunction)
    (m : Error + Registry) : Error + Registry :=
  match m with
  | inl e => inl e
  | inr reg => register (ns +:+ "::" +:+ name, "") k f reg
  end.

(** [TORCH_LIBRARY_IMPL(aten, Tracer, m) { ... }] *)
Definition TORCH_LIBRARY_IMPL_aten_Tracer (reg : Registry) : Error + Registry :=
  let m := inr reg in
  let m := m_impl "aten" Tracer "resize_" (makeKernel boxed_resize_) m in
  let m := m_impl "aten" Tracer "resize_as_" (makeKernel boxed_resize_as_) m in
  let m := m_impl "aten" Tracer "detach" (makeKernel boxed_detach) m in
  let m := m_impl "aten" Tracer "detach_" (makeKernel boxed_detach_) m in
  let m := m_impl "aten" Tracer "copy_" (makeKernel boxed_copy_) m in
  (* Skip tracing for the following ops by registering fallthrough kernel
     explicitly. *)
  let m := m_impl "aten" Tracer "backward" makeFallthrough m in
  let m := m_impl "aten" Tracer "set_data" makeFallthrough m in
  let m := m_impl "aten" Tracer "data" makeFallthrough m in
  let m := m_impl "aten" Tracer "is_leaf" makeFallthrough m in
  let m := m_impl "aten" Tracer "output_nr" makeFallthrough m in
  let m := m_impl "aten" Tracer "_version" makeFallthrough m in
  let m := m_impl "aten" Tracer "requires_grad_" makeFallthrough m in
  let m := m_impl "aten" Tracer "retain_grad" makeFallthrough m in
  m.

(** The operator names the block gives an interceptor, and those it declares
    fallthrough. *)
Definition interceptor_names : list string :=
  [ "resize_"; "resize_as_"; "detach"; "detach_"; "copy_" ].

Definition fallthrough_names : list string :=
  [ "backward"; "set_data"; "data"; "is_leaf"; "output_nr"; "_version";
    "requires_grad_"; "retain_grad" ].

Definition aten (name : string) : OperatorHandle := ("aten" +:+ "::" +:+ name, "").

(** ** Concrete kernels, registries and worlds

    Small instances on which the statements below are exercised. *)
Module Fixture.

(** A backend kernel of [aten::copy_]: overwrites the data of the storage
    of [self] with that of [src] and returns [self]. *)
Definition cpu_copy_ : KernelFunction := λ _ args w,
  match args with
  | [IVTensor self; IVTensor src; IVBool _] =>
      let h := heap w in
      match tensors h !! self, tensors h !! src with
      | Some a, Some b =>
          let d := default [] (storage_data h !! t_storage b) in
          Ok (IVTensor self)
             (set_heap (mkHeap (tensors h) (<[t_storage a := d]> (storage_data h))) w)
      | _, _ => Throw (KernelFailure "undefined tensor") w
      end
  | _ => Throw InternalAssert w
  end.

Definition fresh_tensor (h : Heap) : Tensor :=
  map_fold (λ k _ acc, Pos.max (Pos.succ k) acc) 1%positive (tensors h).

(** A backend kernel of [aten::detach]: a new tensor viewing the storage
    of [self], without gradient history. *)
Definition cpu_detach : KernelFunction := λ _ args w,
  match args with
  | [IVTensor self] =>
      let h := heap w in
      match tensors h !! self with
      | Some a =>
          let t := fresh_tensor h in
          Ok (IVTensor t)
             (set_heap (mkHeap (<[t := mkTensorImpl (t_storage a) (t_sizes a) false]> (tensors h))
                               (storage_data h)) w)
      | None => Throw (KernelFailure "undefined tensor") w
      end
  | _ => Throw InternalAssert w
  end.

(** A backend kernel of [aten::detach_]: clears the gradient flag of
    [self] and returns it. *)
Definition cpu_detach_ : KernelFunction := λ _ args w,
  match args with
  | [IVTensor self] =>
      let h := heap w in
      match tensors h !! self with
      | Some a =>
          Ok (IVTensor self)
             (set_heap (mkHeap (<[self := mkTensorImpl (t_storage a) (t_sizes a) false]> (tensors h))
                               (storage_data h)) w)
      | None => Throw (KernelFailure "undefined tensor") w
      end
  | _ => Throw InternalAssert w
  end.

(** A backend kernel of [aten::resize_]: sets the sizes of [self]. *)
Definition cpu_resize_ : KernelFunction := λ _ args w,
  match args with
  | [IVTensor self; IVIntList size; IVMemoryFormat _] =>
      let h := heap w in
      match tensors h !! self with
      | Some a =>
          Ok (IVTensor self)
             (set_heap (mkHeap (<[self := mkTensorImpl (t_storage a) size (t_requires_grad a)]> (tensors h))
                               (storage_data h)) w)
      | None => Throw (KernelFailure "undefined tensor") w
      end
  | _ => Throw InternalAssert w
  end.

(** A backend kernel of [aten::resize_as_]: gives [self] the sizes of the
    template. *)
Definition cpu_resize_as_ : KernelFunction := λ _ args w,
  match args with
  | [IVTensor self; IVTensor tmpl; IVMemoryFormat _] =>
      let h := heap w in
      match tensors h !! self, tensors h !! tmpl with
      | Some a, Some b =>
          Ok (IVTensor self)
             (set_heap (mkHeap (<[self := mkTensorImpl (t_storage a) (t_sizes b) (t_requires_grad a)]> (tensors h))
                               (storage_data h)) w)
      | _, _ => Throw (KernelFailure "undefined tensor") w
      end
  | _ => Throw InternalAssert w
  end.

(** A backend kernel of [aten::is_leaf]. *)
Definition cpu_is_leaf : KernelFunction := λ _ args w,
  match args with
  | [IVTensor self] =>
      match tensors (heap w) !! self with
      | Some a => Ok (IVBool (negb (t_requires_grad a))) w
      | None => Throw (KernelFailure "undefined tensor") w
      end
  | _ => Throw InternalAssert w
  end.

Definition known_schema (name overload : string) : bool :=
  bool_decide (name ∈ ["aten::copy_"; "aten::resize_"; "aten::resize_as_";
                       "aten::detach"; "aten::detach_"; "aten::is_leaf"])
  && bool_decide (overload = "").

(** A registry with the schemas defined and no kernel at all. *)
Definition empty_registry : Registry := mkRegistry known_schema (λ _ _, None).

Definition backend_table (op : OperatorHandle) (k : DispatchKey) : option CppFunction :=
  match k with
  | BackendKey =>
      if bool_decide (op = aten "copy_") then Some (makeKernel cpu_copy_)
      else if bool_decide (op = aten "resize_") then Some (makeKernel cpu_resize_)
      else if bool_decide (op = aten "resize_as_") then Some (makeKernel cpu_resize_as_)
      else if bool_decide (op = aten "detach") then Some (makeKernel cpu_detach)
      else if bool_decide (op = aten "detach_") then Some (makeKernel cpu_detach_)
      else if bool_decide (op = aten "is_leaf") then Some (makeKernel cpu_is_leaf)
      else None
  | _ => None
  end.

(** A registry with a backend kernel for each operator above. *)
Definition backend_registry : Registry := mkRegistry known_schema backend_table.

(** Tensors 1 and 3 view storage 1; tensor 2 has storage 2 to itself. *)
Definition heap0 : Heap :=
  mkHeap (<[1%positive := mkTensorImpl 1%positive [2%Z] true]>
          (<[2%positive := mkTensorImpl 2%positive [2%Z] false]>
           (<[3%positive := mkTensorImpl 1%positive [1%Z] false]> ∅)))
         (<[1%positive := [10%Z; 11%Z]]> (<[2%positive := [20%Z; 21%Z]]> ∅)).

Definition graph0 : Graph := mkGraph ∅ [] 1%positive.

(** A session in which the three tensors are inputs of the trace. *)
Definition session0 (outplace : bool) : TracingState :=
  mkTracingState graph0 outplace
    (<[1%positive := GraphInput 0]>
     (<[2%positive := GraphInput 1]>
      (<[3%positive := GraphInput 2]> ∅))) [].

Definition tracing_world (outplace : bool) : World :=
  mkWorld (Some (session0 outplace)) true ∅ heap0 "model.py:7".

Definition plain_world : World :=
  mkWorld None false ∅ heap0 "model.py:7".

(** What the interceptors see of the dispatcher, over each registry. *)
Definition D_backend : Dispatcher := tracer_dispatcher backend_registry full_set.
Definition D_empty : Dispatcher := tracer_dispatcher empty_registry full_set.

(** As [D_backend], except that it refuses to run a kernel while tracer
    dispatch is enabled. *)
Definition D_strict : Dispatcher :=
  mkDispatcher known_schema
    (λ op k args w,
       if dispatch_enabled w then Throw (KernelFailure "tracer dispatch enabled") w
       else redispatch D_backend op k args w).

End Fixture.

(** * Vocabulary of the statements *)

(** The computation reached by redispatching leaves the trace session alone
    whenever it runs with tracer dispatch disabled. *)
Definition trace_oblivious (D : Dispatcher) : Prop :=
  ∀ op k args w, dispatch_enabled w = false →
    tracing_state (final_world (redispatch D op k args w)) = tracing_state w.

(** The same, for one call. *)
Definition oblivious_call (D : Dispatcher) (op : OperatorHandle)
    (args : list IValue) : Prop :=
  ∀ w, dispatch_enabled w = false →
    tracing_state (final_world (redispatch D op Tracer args w)) = tracing_state w.

(** The real kernel of [op] returns a tensor on the heap [h]. *)
Definition succeeds_on (D : Dispatcher) (h : Heap) (op : OperatorHandle)
    (args : list IValue) : Prop :=
  ∀ w, heap w = h → dispatch_enabled w = false →
    ∃ t w', redispatch D op Tracer args w = Ok (IVTensor t) w'.

(** No kernel is found for the real execution of [op]. *)
Definition no_kernel (D : Dispatcher) (op : OperatorHandle) (args : list IValue) : Prop :=
  ∀ w, redispatch D op Tracer args w = Throw NoKernelFound w.

(** The node list of the session's graph, if a session is live. *)
Definition committed_nodes (w : World) : option (list NodeId) :=
  (λ st, block (graph st)) <$> tracing_state w.

(** The node a pointer designates in the session's graph. *)
Definition node_at (w : World) (n : NodeId) : option Node :=
  st ← tracing_state w; all_nodes (graph st) !! n.

(** The symbolic value an identity resolves to. *)
Definition resolves_to (w : World) (t : Tensor) : option Value :=
  st ← tracing_state w; value_map st !! t.

(** Committing a freshly created node [nd] to a graph. *)
Definition commit (nd : Node) (g : Graph) : Graph :=
  mkGraph (<[next_unique g := nd]> (all_nodes g))
          (block g ++ [next_unique g]) (Pos.succ (next_unique g)).

(** The session after the "ensure unique" step on [self]. *)
Definition ensure_unique (h : Heap) (self : Tensor) (st : TracingState) : TracingState :=
  if force_outplace st
  then set_value_map (invalidate_aliases h self (value_map st)) st
  else st.

(** The node [copy_] records: an [expand_as] of [src] to [self] when the
    out-of-place branch is taken, an in-place [copy_] otherwise. *)
Definition copy_node (st : TracingState) (h : Heap) (self : Tensor)
    (vself vsrc : Value) (loc : SourceRange) : Node :=
  let n := next_unique (graph st) in
  if force_outplace st && (storage_use_count h self <=? 1)
  then mkNode aten_expand_as [(Some "src", vsrc); (Some "self", vself)]
              [NodeOutput n 0] None
  else mkNode aten_copy_ [(None, vself); (None, vsrc)]
              [NodeOutput n 0] (Some loc).

(** The node [detach] and [detach_] record, before and after the output
    slot is attached. *)
Definition detach_node (vself : Value) (outs : list Value) (loc : SourceRange) : Node :=
  mkNode aten_detach [(Some "self", vself)] outs (Some loc).

(** A call that fails leaves the committed nodes of the graph as they were
    on entry. *)
Definition leaves_no_partial_node {A} (call : M A) (w : World) : Prop :=
  ∀ e w', call w = Throw e w' → committed_nodes w' = committed_nodes w.

(** A dispatcher whose redispatch fails at once and touches nothing: the
    world in which an interceptor ends over it is, up to the restored mode,
    the world in which the interceptor redispatches. *)
Definition probe : Dispatcher :=
  mkDispatcher (λ _ _, true) (λ _ _ _, throw NoKernelFound).

Definition world_at_redispatch {A} (interceptor : Dispatcher → M A) (w : World) : World :=
  final_world (interceptor probe w).

(** The identity map is untouched until the redispatch: neither the
    rebinding nor the invalidation of aliases precedes it. *)
Definition binds_only_after_redispatch {A} (interceptor : Dispatcher → M A)
    (w : World) : Prop :=
  value_map <$> tracing_state (world_at_redispatch interceptor w)
  = value_map <$> tracing_state w.

(** A computation that ends, normally or not, with the tracer dispatch mode
    it started with. *)
Definition keeps_mode {A} (m : M A) : Prop :=
  ∀ w, dispatch_enabled (final_world (m w)) = dispatch_enabled w.

(** Two computations with the same outcome in every world. *)
Definition same {A} (m1 m2 : M A) : Prop := ∀ w, m1 w = m2 w.

(** Two dispatchers that cannot be told apart while tracer dispatch is
    disabled. *)
Definition agree_when_disabled (D1 D2 : Dispatcher) : Prop :=
  (∀ name overload, has_schema D1 name overload = has_schema D2 name overload) ∧
  (∀ op k args w, dispatch_enabled w = false →
     redispatch D1 op k args w = redispatch D2 op k args w).

(** The real kernel of an in-place operator returns its first argument. *)
Definition returns_self (D : Dispatcher) (op : OperatorHandle) (self : Tensor)
    (rest : list IValue) : Prop :=
  ∀ w r w', redispatch D op Tracer (IVTensor self :: rest) w = Ok r w' → r = IVTensor self.

(** The real kernel returns a tensor. *)
Definition returns_tensor (D : Dispatcher) (op : OperatorHandle)
    (args : list IValue) : Prop :=
  ∀ w r w', redispatch D op Tracer args w = Ok r w' → ∃ t, r = IVTensor t.

(** [call] does what [kernel] does and nothing else: same result and same
    final world as the kernel run in the tracer-disabled scope, no session
    afterwards; and the scope itself is invisible when tracer dispatch is
    off on entry and the kernel leaves it off. *)
Definition pass_through (call : M Tensor) (kernel : M IValue) (w : World) : Prop :=
  (IVTensor <$> call) w = NoTracerDispatchMode kernel w ∧
  tracing_state (final_world (call w)) = None ∧
  (dispatch_enabled w = false →
   dispatch_enabled (final_world (kernel w)) = false →
   (IVTensor <$> call) w = kernel w).


(** The schemas of the five intercepted operators are known to [D]. *)
Definition knows_schemas (D : Dispatcher) : Prop :=
  ∀ name, name ∈ interceptor_names → has_schema D ("aten::" +:+ name) "" = true.

(** In the session of [w], if there is one, the tensors [ts] are bound. *)
Definition bound_in (ts : list Tensor) (w : World) : Prop :=
  ∀ st t, tracing_state w = Some st → t ∈ ts → is_Some (value_map st !! t).

(** [call] runs [kernel] inside the tracer-disabled scope: [kernel] is run
    in a world [w1] in which tracer dispatch is disabled and which has the
    heap [call] was entered with ([w1] is the entry world with the mode
    switched off when there is no session).  A failure of [kernel] is the
    failure of [call], raised from the world [kernel] left with the entry
    mode restored.  When [kernel] returns, [call] ends with the heap and
    the stash [kernel] left and with the entry mode. *)
Definition in_scope {A} (call : M A) (kernel : M IValue) (w : World) : Prop :=
  ∃ w1,
    dispatch_enabled w1 = false ∧
    heap w1 = heap w ∧
    (tracing_state w = None → w1 = set_dispatch_enabled false w) ∧
    match kernel w1 with
    | Throw e w2 => call w = Throw e (set_dispatch_enabled (dispatch_enabled w) w2)
    | Ok _ w2 =>
        let w' := final_world (call w) in
        heap w' = heap w2 ∧ stash w' = stash w2 ∧
        dispatch_enabled w' = dispatch_enabled w
    end.

(** A real kernel whose body calls operators: each call of [calls] goes
    through [dispatch] from the top of the registry [reg], with the
    capability set [ks]; then the kernel returns [result]. *)
Fixpoint run_calls (reg : Registry) (ks : DispatchKeySet)
    (calls : list (OperatorHandle * list IValue)) (result : IValue) : M IValue :=
  match calls with
  | [] => mret result
  | (op, args) :: rest => dispatch reg op ks args;; run_calls reg ks rest result
  end.

(** The same body with every call resolved among the tags below [Tracer]. *)
Fixpoint run_calls_below (reg : Registry) (ks : DispatchKeySet)
    (calls : list (OperatorHandle * list IValue)) (result : IValue) : M IValue :=
  match calls with
  | [] => mret result
  | (op, args) :: rest =>
      dispatch_in reg ks [AutogradKey; BackendKey] op args;;
      run_calls_below reg ks rest result
  end.

(** The dispatchers whose real kernels are these bodies. *)
Definition calling (reg : Registry) (ks : DispatchKeySet)
    (calls : list (OperatorHandle * list IValue)) (result : IValue) : Dispatcher :=
  mkDispatcher (schemas reg) (λ _ _ _, run_calls reg ks calls result).

Definition calling_below (reg : Registry) (ks : DispatchKeySet)
    (calls : list (OperatorHandle * list IValue)) (result : IValue) : Dispatcher :=
  mkDispatcher (schemas reg) (λ _ _ _, run_calls_below reg ks calls result).

(** The kernels registered below [Tracer] leave the tracer dispatch mode
    and the trace session as they find them. *)
Definition quiet_below (reg : Registry) (ks : DispatchKeySet) : Prop :=
  ∀ op args w,
    let w' := final_world (dispatch_in reg ks [AutogradKey; BackendKey] op args w) in
    dispatch_enabled w' = dispatch_enabled w ∧ tracing_state w' = tracing_state w.

(** * Further vocabulary *)

(** The operators the registration block binds under [Tracer]. *)
Definition block_names : list string := interceptor_names ++ fallthrough_names.

(** The registry the registration block leaves, when it succeeds. *)
Definition registered (reg : Registry) : Registry :=
  match TORCH_LIBRARY_IMPL_aten_Tracer reg with
  | inr reg' => reg'
  | inl _ => reg
  end.

(** [st'] comes from [st] by allocating at most one node, the one numbered
    [next_unique (graph st)], and committing it or not; nothing else of the
    graph changes, and the prefer-outplace flag is kept. *)
Definition grew (st st' : TracingState) : Prop :=
  let n0 := next_unique (graph st) in
  force_outplace st' = force_outplace st ∧
  (∀ n, n ≠ n0 → all_nodes (graph st') !! n = all_nodes (graph st) !! n) ∧
  (graph st' = graph st ∨
   (block (graph st') = block (graph st) ∧
    next_unique (graph st') = Pos.succ n0) ∨
   (block (graph st') = block (graph st) ++ [n0] ∧
    next_unique (graph st') = Pos.succ n0 ∧
    ∃ nd, all_nodes (graph st') !! n0 = Some nd ∧
          (outputs nd = [] ∨ outputs nd = [NodeOutput n0 0]))).

(** Every binding of [st'] is a binding of [st], or binds [dest] to the sole
    output of the node committed since [st]. *)
Definition bindings_from (st st' : TracingState) (dest : Tensor) : Prop :=
  let n0 := next_unique (graph st) in
  ∀ t v, value_map st' !! t = Some v →
    value_map st !! t = Some v ∨
    (t = dest ∧ v = NodeOutput n0 0 ∧
     block (graph st') = block (graph st) ++ [n0] ∧
     ∃ nd, all_nodes (graph st') !! n0 = Some nd ∧ outputs nd = [NodeOutput n0 0]).

(** The identities other than [dest] keep their binding from [st] to [st'],
    except, when the session prefers out-of-place recording, the aliases of
    [self] on the heap [h]. *)
Definition bindings_kept (h : Heap) (self dest : Tensor) (st st' : TracingState) : Prop :=
  ∀ t, t ≠ dest → (force_outplace st = true → ¬ is_alias h self t) →
    value_map st' !! t = value_map st !! t.

(** A session whose graph and identity map are consistent: node numbers are
    below [next_unique], the committed nodes are allocated and listed once,
    and every identity bound to an output of a node is bound to an existing
    output slot of a committed node. *)
Definition session_wf (st : TracingState) : Prop :=
  let g := graph st in
  (∀ n, is_Some (all_nodes g !! n) → (n < next_unique g)%positive) ∧
  NoDup (block g) ∧
  (∀ n, n ∈ block g → is_Some (all_nodes g !! n)) ∧
  (∀ t n k, value_map st !! t = Some (NodeOutput n k) →
     n ∈ block g ∧ ∃ nd, all_nodes g !! n = Some nd ∧ NodeOutput n k ∈ outputs nd).

(** Along [m], the component [proj] of the world moves by [R]. *)
Definition steps {A B} (proj : World → B) (R : B → B → Prop) (m : M A) : Prop :=
  ∀ w, R (proj w) (proj (final_world (m w))).

(** Whenever [m] returns, it returns a value satisfying [P]. *)
Definition returns {A} (P : A → Prop) (m : M A) : Prop :=
  ∀ w a w', m w = Ok a w' → P a.

(** The heap [h'] has every tensor of [h]. *)
Definition keeps_tensors (h h' : Heap) : Prop :=
  dom (tensors h) ⊆ dom (tensors h').

(** A dispatcher that knows no schema at all. *)
Definition schemaless : Dispatcher :=
  mkDispatcher (λ _ _, false) (λ _ _ _, throw NoKernelFound).

(** The failures a call can end with: an unbound tensor, an unknown schema,
    or the failure of the real kernel, run with tracer dispatch disabled. *)
Definition expected_failure (D : Dispatcher) (op : OperatorHandle)
    (args : list IValue) (e : Error) : Prop :=
  e = UnboundValue ∨ e = SchemaNotFound ∨
  ∃ w1 w2, dispatch_enabled w1 = false ∧ redispatch D op Tracer args w1 = Throw e w2.

(** A dispatcher whose real kernels open a trace session while they run. *)
Definition session_opening : Dispatcher :=
  mkDispatcher (λ _ _, true)
    (λ _ _ _ w,
       Ok (IVTensor 1) (set_tracing_state (Some (Fixture.session0 false)) w)).

(** ** The operator handle of an interceptor

    Each interceptor keeps the handle of its operator in a function-local
    static, [static auto op = c10::Dispatcher::singleton()
    .findSchemaOrThrow(name, overload).typed<...>()] (lines 39-41, 69-71,
    93-95, 117-119 and 147-149): the initialiser runs when control first
    reaches the declaration, and again on a later call only if it threw;
    once it has returned, the handle is reused and the schema registry is
    not consulted again. *)

(** What a call sees of the dispatcher once the static holds the handle:
    no lookup fails. *)
Definition cached (D : Dispatcher) : Dispatcher :=
  mkDispatcher (λ _ _, true) (redispatch D).

(** The dispatcher [D] after its schemas have been withdrawn. *)
Definition forgotten (D : Dispatcher) : Dispatcher :=
  mkDispatcher (λ _ _, false) (redispatch D).

(** The call gets as far as the declaration of the static. *)
Definition reaches_lookup {A} (interceptor : Dispatcher → M A) (w : World) : bool :=
  match interceptor schemaless w with
  | Throw SchemaNotFound _ => true
  | _ => false
  end.

(** A call of [interceptor] that finds its static in the state
    [initialised]. *)
Definition static_call {A} (interceptor : Dispatcher → M A) (D : Dispatcher)
    (initialised : bool) : M A :=
  interceptor (if initialised then cached D else D).

(** The state of the static after that call. *)
Definition static_after {A} (interceptor : Dispatcher → M A) (name : string)
    (D : Dispatcher) (initialised : bool) (w : World) : bool :=
  initialised || (reaches_lookup interceptor w && has_schema D name "").

(** * Properties *)

(** ** The order of the capability tags *)

(** [all_keys] lists every tag once, by decreasing priority. *)
Lemma all_keys_by_priority :
  priority <$> all_keys = [2; 1; 0] ∧ ∀ k, k ∈ all_keys.
Proof.
  split; [reflexivity|]. intros []; unfold all_keys; set_solver.
Qed.

(** ** Running the monad *)

Ltac tracer_unfold :=
  unfold graph_insert, mapM, recordSourceLocation, value_node, setOutput,
    addOutput, node_addOutput, setValueTrace, delValueTrace, warn,
    popIntArrayRef, isTracing, getTracingState, get_world, graph_create,
    addInputs, graph_insertNode, node_output, getValueTrace, node_addInput,
    getNode, putNode, putTracingState, ensureUniqueIfOutOfPlaced,
    findSchemaOrThrow, toTensor, throw, mbind, M_bind, mret, M_ret, fmap,
    M_fmap, set_tracing_state, set_graph, set_node, set_value_map,
    set_warnings, set_stash, set_dispatch_enabled in *.

Ltac run :=
  repeat (progress (tracer_unfold; simpl in *;
                    rewrite ?lookup_insert_eq, ?insert_insert_eq)).

Lemma set_dispatch_enabled_final {A} (b : bool) (r : Result A) :
  tracing_state
    (final_world (match r with
                  | Ok a w' => Ok a (set_dispatch_enabled b w')
                  | Throw e w' => Throw e (set_dispatch_enabled b w')
                  end)) = tracing_state (final_world r).
Proof. by destruct r. Qed.

(** Inside the guard, a trace-oblivious computation keeps the session. *)
Lemma guarded_oblivious D op k args w :
  trace_oblivious D →
  tracing_state (final_world (NoTracerDispatchMode (redispatch D op k args) w))
  = tracing_state w.
Proof.
  intros HD. unfold NoTracerDispatchMode.
  rewrite set_dispatch_enabled_final. by rewrite HD.
Qed.

Lemma oblivious_any_call D op args : trace_oblivious D → oblivious_call D op args.
Proof. intros HD w Hw. by apply HD. Qed.

Lemma no_kernel_oblivious D op args : no_kernel D op args → oblivious_call D op args.
Proof. intros HD w _. by rewrite HD. Qed.

(** ** Resize and resize-as-template *)

(** C3. Under an active session, whatever the destination was bound to and
    however the call ends, [resize_] and [resize_as_] emit exactly one
    warning to the session, leave the destination identity unbound, and
    create no trace node. *)
Theorem resize_untraceable D self size the_template mf w st :
  tracing_state w = Some st →
  trace_oblivious D →
  (∃ st', tracing_state (final_world (resize_ D self size mf w)) = Some st' ∧
          warnings st' = warnings st ++ [("resize_", WARN_RESIZE)] ∧
          value_map st' = delete self (value_map st) ∧
          value_map st' !! self = None ∧
          graph st' = graph st) ∧
  (∃ st', tracing_state (final_world (resize_as_ D self the_template mf w)) = Some st' ∧
          warnings st' = warnings st ++ [("resize_as_", WARN_RESIZE)] ∧
          value_map st' = delete self (value_map st) ∧
          value_map st' !! self = None ∧
          graph st' = graph st).
Proof.
  intros Hst HD.
  destruct w as [ts de sh h loc]; simpl in *; subst ts.
  split.
  - unfold resize_. run. destruct (has_schema D _ _); run.
    + match goal with |- context [NoTracerDispatchMode (redispatch D ?op ?k ?args) ?w1] =>
        pose proof (guarded_oblivious D op k args w1 HD) as Hg;
        destruct (NoTracerDispatchMode (redispatch D op k args) w1) as [r w2|e w2] end;
      simpl in *; rewrite Hg; eexists; split; try reflexivity; simpl;
      by rewrite lookup_delete_eq.
    + eexists; split; [reflexivity|]; simpl. by rewrite lookup_delete_eq.
  - unfold resize_as_. run. destruct (has_schema D _ _); run.
    + match goal with |- context [NoTracerDispatchMode (redispatch D ?op ?k ?args) ?w1] =>
        pose proof (guarded_oblivious D op k args w1 HD) as Hg;
        destruct (NoTracerDispatchMode (redispatch D op k args) w1) as [r w2|e w2] end;
      simpl in *; rewrite Hg; eexists; split; try reflexivity; simpl;
      by rewrite lookup_delete_eq.
    + eexists; split; [reflexivity|]; simpl. by rewrite lookup_delete_eq.
Qed.

(** ** Running an interceptor under an active session *)

Ltac redispatch_cases HD :=
  match goal with
  | |- context [redispatch ?D ?op ?k ?args ?w1] =>
      let Hg := fresh "Hg" in
      pose proof (HD w1 eq_refl) as Hg;
      destruct (redispatch D op k args w1) as [? ?|? ?];
      run; rewrite ?Hg; run
  end.

(** [copy_] under an active session: the session the redispatch runs in, and
    the outcome of the call in terms of the outcome of the redispatch. *)
Lemma copy__run D self src nb w st vself vsrc :
  tracing_state w = Some st →
  value_map st !! self = Some vself →
  value_map st !! src = Some vsrc →
  has_schema D "aten::copy_" "" = true →
  oblivious_call D ("aten::copy_", "") [IVTensor self; IVTensor src; IVBool nb] →
  let n := next_unique (graph st) in
  let st1 := ensure_unique (heap w) self
               (set_graph (commit (copy_node st (heap w) self vself vsrc
                                     (python_location w)) (graph st)) st) in
  let w1 := set_dispatch_enabled false (set_tracing_state (Some st1) w) in
  match redispatch D ("aten::copy_", "") Tracer
          [IVTensor self; IVTensor src; IVBool nb] w1 with
  | Ok _ w2 =>
      copy_ D self src nb w =
        Ok self (set_dispatch_enabled (dispatch_enabled w)
                   (set_tracing_state
                      (Some (set_value_map (<[self := NodeOutput n 0]> (value_map st1)) st1))
                      w2))
  | Throw e w2 =>
      copy_ D self src nb w = Throw e (set_dispatch_enabled (dispatch_enabled w) w2)
      ∧ tracing_state w2 = Some st1
  end.
Proof.
  intros Hst Hself Hsrc Hsch HD.
  destruct w as [ts de sh h loc]; simpl in *; subst ts.
  destruct st as [g fo vm ws]; simpl in *.
  unfold copy_, copy_node, ensure_unique, commit, NoTracerDispatchMode.
  destruct fo, (storage_use_count h self <=? 1) eqn:E;
    repeat (progress (run; rewrite ?E, ?Hsrc, ?Hself, ?Hsch)).
  all: redispatch_cases HD; done.
Qed.

(** [detach] under an active session. *)
Lemma detach_run D self w st vself :
  tracing_state w = Some st →
  value_map st !! self = Some vself →
  has_schema D "aten::detach" "" = true →
  oblivious_call D ("aten::detach", "") [IVTensor self] →
  let n := next_unique (graph st) in
  let loc := python_location w in
  let st1 := set_graph (commit (detach_node vself [] loc) (graph st)) st in
  let w1 := set_dispatch_enabled false (set_tracing_state (Some st1) w) in
  match redispatch D ("aten::detach", "") Tracer [IVTensor self] w1 with
  | Ok (IVTensor result) w2 =>
      detach D self w =
        Ok result
           (set_dispatch_enabled (dispatch_enabled w)
              (set_tracing_state
                 (Some (set_value_map (<[result := NodeOutput n 0]> (value_map st1))
                          (set_graph (set_node n (detach_node vself [NodeOutput n 0] loc)
                                        (graph st1)) st1)))
                 w2))
  | Ok _ w2 =>
      detach D self w = Throw InternalAssert (set_dispatch_enabled (dispatch_enabled w) w2)
  | Throw e w2 =>
      detach D self w = Throw e (set_dispatch_enabled (dispatch_enabled w) w2)
      ∧ tracing_state w2 = Some st1
  end.
Proof.
  intros Hst Hself Hsch HD.
  destruct w as [ts de sh h loc]; simpl in *; subst ts.
  destruct st as [g fo vm ws]; simpl in *.
  unfold detach, detach_node, commit, NoTracerDispatchMode.
  repeat (progress (run; rewrite ?Hself, ?Hsch)).
  redispatch_cases HD; try done.
  match goal with |- context [match ?a with IVTensor _ => _ | _ => _ end] =>
    destruct a end; run; rewrite ?Hg; run; done.
Qed.

(** [detach_] under an active session. *)
Lemma detach__run D self w st vself :
  tracing_state w = Some st →
  value_map st !! self = Some vself →
  has_schema D "aten::detach_" "" = true →
  oblivious_call D ("aten::detach_", "") [IVTensor self] →
  let n := next_unique (graph st) in
  let loc := python_location w in
  let st1 := ensure_unique (heap w) self
               (set_graph (commit (detach_node vself [] loc) (graph st)) st) in
  let w1 := set_dispatch_enabled false (set_tracing_state (Some st1) w) in
  match redispatch D ("aten::detach_", "") Tracer [IVTensor self] w1 with
  | Ok _ w2 =>
      detach_ D self w =
        Ok self
           (set_dispatch_enabled (dispatch_enabled w)
              (set_tracing_state
                 (Some (set_value_map (<[self := NodeOutput n 0]> (value_map st1))
                          (set_graph (set_node n (detach_node vself [NodeOutput n 0] loc)
                                        (graph st1)) st1)))
                 w2))
  | Throw e w2 =>
      detach_ D self w = Throw e (set_dispatch_enabled (dispatch_enabled w) w2)
      ∧ tracing_state w2 = Some st1
  end.
Proof.
  intros Hst Hself Hsch HD.
  destruct w as [ts de sh h loc]; simpl in *; subst ts.
  destruct st as [g fo vm ws]; simpl in *.
  unfold detach_, detach_node, ensure_unique, commit, NoTracerDispatchMode.
  destruct fo;
    repeat (progress (run; rewrite ?Hself, ?Hsch));
    redispatch_cases HD; done.
Qed.

(** ** Facts about the concrete instances *)
Module FixtureFacts.
Import Fixture.

Lemma D_empty_no_kernel op args : no_kernel D_empty op args.
Proof. intros w. reflexivity. Qed.

Lemma D_empty_oblivious : trace_oblivious D_empty.
Proof. intros op k args w _. by destruct k. Qed.

Lemma D_backend_oblivious : trace_oblivious D_backend.
Proof.
  intros op k args w _. destruct k; try done.
  unfold D_backend, tracer_dispatcher, backend_registry; simpl.
  unfold backend_table.
  repeat case_bool_decide; try done;
    unfold cpu_copy_, cpu_resize_, cpu_resize_as_, cpu_detach, cpu_detach_, cpu_is_leaf;
    repeat case_match; done.
Qed.

Lemma D_backend_copy_ (self src : Tensor) (nb : bool) :
  is_Some (tensors heap0 !! self) → is_Some (tensors heap0 !! src) →
  succeeds_on D_backend heap0 ("aten::copy_", "")
    [IVTensor self; IVTensor src; IVBool nb].
Proof.
  intros [a Ha] [b Hb] w Hw _. simpl. unfold cpu_copy_. rewrite Hw, Ha, Hb. eauto.
Qed.

Lemma D_backend_detach (self : Tensor) :
  is_Some (tensors heap0 !! self) →
  succeeds_on D_backend heap0 ("aten::detach", "") [IVTensor self].
Proof.
  intros [a Ha] w Hw _. simpl. unfold cpu_detach. rewrite Hw, Ha. eauto.
Qed.

Lemma D_backend_detach_ (self : Tensor) :
  is_Some (tensors heap0 !! self) →
  succeeds_on D_backend heap0 ("aten::detach_", "") [IVTensor self].
Proof.
  intros [a Ha] w Hw _. simpl. unfold cpu_detach_. rewrite Hw, Ha. eauto.
Qed.

End FixtureFacts.

Lemma resize_untraceable_witness :
  (∃ st', tracing_state (final_world (resize_ Fixture.D_backend 1 [5%Z] None
                                        (Fixture.tracing_world true))) = Some st' ∧
          warnings st' = [("resize_", WARN_RESIZE)] ∧
          value_map st' !! 1%positive = None ∧
          graph st' = Fixture.graph0) ∧
  (∃ st', tracing_state (final_world (resize_as_ Fixture.D_backend 1 2 None
                                        (Fixture.tracing_world true))) = Some st' ∧
          warnings st' = [("resize_as_", WARN_RESIZE)] ∧
          value_map st' !! 1%positive = None ∧
          graph st' = Fixture.graph0).
Proof.
  destruct (resize_untraceable Fixture.D_backend 1 [5%Z] 2 None
              (Fixture.tracing_world true) (Fixture.session0 true)
              eq_refl FixtureFacts.D_backend_oblivious)
    as [(st1 & H1 & W1 & _ & U1 & G1) (st2 & H2 & W2 & _ & U2 & G2)].
  split.
  - exists st1. split; [exact H1|]. split; [exact W1|]. split; [exact U1|exact G1].
  - exists st2. split; [exact H2|]. split; [exact W2|]. split; [exact U2|exact G2].
Defined.

(** ** The "ensure unique" step *)

Lemma invalidate_aliases_self h self (m : gmap positive Value) :
  invalidate_aliases h self m !! self = m !! self.
Proof.
  unfold invalidate_aliases. destruct (m !! self) as [v|] eqn:Hm.
  - apply map_lookup_filter_Some. split; [done|]. simpl. by intros [? _].
  - apply map_lookup_filter_None. left. done.
Qed.

Lemma ensure_unique_graph h self st : graph (ensure_unique h self st) = graph st.
Proof. unfold ensure_unique. by destruct (force_outplace st). Qed.

Lemma ensure_unique_self h self st :
  value_map (ensure_unique h self st) !! self = value_map st !! self.
Proof.
  unfold ensure_unique. destruct (force_outplace st); [|done].
  apply invalidate_aliases_self.
Qed.

(** ** In-place copy *)

(** C2. Under an active session in which both tensors are bound and the real
    kernel succeeds, [copy_] records a single node: tagged [expand_as] when
    the session prefers out-of-place recording and the storage of the
    destination has at most one holder, tagged [copy_] otherwise; its two
    recorded inputs are the symbolic values of the destination and the
    source in both cases; and after the call the destination resolves to the
    node's sole output. *)
Theorem copy__records D self src nb w st vself vsrc :
  tracing_state w = Some st →
  value_map st !! self = Some vself →
  value_map st !! src = Some vsrc →
  has_schema D "aten::copy_" "" = true →
  trace_oblivious D →
  succeeds_on D (heap w) ("aten::copy_", "")
    [IVTensor self; IVTensor src; IVBool nb] →
  let n := next_unique (graph st) in
  let outplace := force_outplace st && (storage_use_count (heap w) self <=? 1) in
  ∃ w' nd,
    copy_ D self src nb w = Ok self w' ∧
    committed_nodes w' = Some (block (graph st) ++ [n]) ∧
    (∀ m, m ≠ n → node_at w' m = node_at w m) ∧
    node_at w' n = Some nd ∧
    kind nd = (if outplace then aten_expand_as else aten_copy_) ∧
    inputs nd = (if outplace
                 then [(Some "src", vsrc); (Some "self", vself)]
                 else [(None, vself); (None, vsrc)]) ∧
    snd <$> inputs nd ≡ₚ [vself; vsrc] ∧
    outputs nd = [NodeOutput n 0] ∧
    resolves_to w' self = Some (NodeOutput n 0).
Proof.
  intros Hst Hself Hsrc Hsch HD Hok n outplace.
  pose proof (copy__run D self src nb w st vself vsrc Hst Hself Hsrc Hsch
                (oblivious_any_call _ _ _ HD)) as Hrun.
  simpl in Hrun.
  match type of Hrun with context [redispatch D ?op ?k ?args ?w1] =>
    destruct (Hok w1) as (t & w2 & Hr) end.
  { by destruct w. }
  { done. }
  rewrite Hr in Hrun.
  eexists _, (copy_node st (heap w) self vself vsrc (python_location w)).
  split; [exact Hrun|].
  unfold committed_nodes, node_at, resolves_to; simpl.
  rewrite !ensure_unique_graph; simpl. rewrite !lookup_insert_eq.
  repeat split; try done.
  - intros m Hm. rewrite lookup_insert_ne by done. by rewrite Hst.
  - unfold copy_node. fold outplace. by destruct outplace.
  - unfold copy_node. fold outplace. by destruct outplace.
  - unfold copy_node. fold outplace. destruct outplace; simpl; [apply Permutation_swap|done].
  - unfold copy_node. fold outplace. by destruct outplace.
Qed.

Lemma copy__records_witness :
  ∃ w', copy_ Fixture.D_backend 2 1 false (Fixture.tracing_world true) = Ok 2%positive w' ∧
        committed_nodes w' = Some [1%positive] ∧
        resolves_to w' 2 = Some (NodeOutput 1 0).
Proof.
  destruct (copy__records Fixture.D_backend 2 1 false (Fixture.tracing_world true)
              (Fixture.session0 true) (GraphInput 1) (GraphInput 0)
              eq_refl eq_refl eq_refl eq_refl
              FixtureFacts.D_backend_oblivious
              (FixtureFacts.D_backend_copy_ 2 1 false
                 (ex_intro _ _ eq_refl) (ex_intro _ _ eq_refl)))
    as (w' & nd & H1 & H2 & _ & _ & _ & _ & _ & _ & H3).
  exists w'. split; [exact H1|]. split; [exact H2|exact H3].
Defined.

(** The session in which an interceptor ends, whatever the outcome. *)
Lemma copy__final D self src nb w st vself vsrc :
  tracing_state w = Some st →
  value_map st !! self = Some vself →
  value_map st !! src = Some vsrc →
  has_schema D "aten::copy_" "" = true →
  oblivious_call D ("aten::copy_", "") [IVTensor self; IVTensor src; IVBool nb] →
  ∃ st', tracing_state (final_world (copy_ D self src nb w)) = Some st' ∧
         graph st' = commit (copy_node st (heap w) self vself vsrc (python_location w))
                            (graph st).
Proof.
  intros Hst Hself Hsrc Hsch HD.
  pose proof (copy__run D self src nb w st vself vsrc Hst Hself Hsrc Hsch HD) as Hrun.
  simpl in Hrun.
  destruct (redispatch D _ _ _ _) as [r w2|e w2].
  - rewrite Hrun. eexists. split; [reflexivity|]. simpl. by rewrite ensure_unique_graph.
  - destruct Hrun as [Hrun Hw2]. rewrite Hrun. eexists. split; [exact Hw2|].
    by rewrite ensure_unique_graph.
Qed.

(** ** Detach and in-place detach *)

(** C4. Under an active session in which the input is bound and the real
    kernel succeeds, [detach] records exactly one [detach] node with the
    single input [self]; the redispatch runs while the node has no output,
    and one output slot is attached afterwards; the returned tensor resolves
    to that output.  [detach_] records the same node and rebinds [self]
    itself to the output. *)
Theorem detach_records D self w st vself :
  tracing_state w = Some st →
  value_map st !! self = Some vself →
  has_schema D "aten::detach" "" = true →
  has_schema D "aten::detach_" "" = true →
  trace_oblivious D →
  succeeds_on D (heap w) ("aten::detach", "") [IVTensor self] →
  succeeds_on D (heap w) ("aten::detach_", "") [IVTensor self] →
  let n := next_unique (graph st) in
  let loc := python_location w in
  (∃ result w1 w2 w',
     redispatch D ("aten::detach", "") Tracer [IVTensor self] w1 = Ok (IVTensor result) w2 ∧
     node_at w1 n = Some (detach_node vself [] loc) ∧
     detach D self w = Ok result w' ∧
     heap w' = heap w2 ∧
     committed_nodes w' = Some (block (graph st) ++ [n]) ∧
     (∀ m, m ≠ n → node_at w' m = node_at w m) ∧
     node_at w' n = Some (detach_node vself [NodeOutput n 0] loc) ∧
     resolves_to w' result = Some (NodeOutput n 0)) ∧
  (∃ w1 r w2 w',
     redispatch D ("aten::detach_", "") Tracer [IVTensor self] w1 = Ok r w2 ∧
     node_at w1 n = Some (detach_node vself [] loc) ∧
     detach_ D self w = Ok self w' ∧
     heap w' = heap w2 ∧
     committed_nodes w' = Some (block (graph st) ++ [n]) ∧
     (∀ m, m ≠ n → node_at w' m = node_at w m) ∧
     node_at w' n = Some (detach_node vself [NodeOutput n 0] loc) ∧
     resolves_to w' self = Some (NodeOutput n 0)).
Proof.
  intros Hst Hself Hsch Hsch_ HD Hok Hok_ n loc. split.
  - pose proof (detach_run D self w st vself Hst Hself Hsch
                  (oblivious_any_call _ _ _ HD)) as Hrun.
    simpl in Hrun.
    match type of Hrun with context [redispatch D ?op ?k ?args ?w1] =>
      destruct (Hok w1) as (t & w2 & Hr); [by destruct w|done|];
      exists t, w1, w2 end.
    rewrite Hr in Hrun. eexists. split; [exact Hr|].
    split. { unfold node_at; simpl. by rewrite lookup_insert_eq. }
    split; [exact Hrun|].
    unfold committed_nodes, node_at, resolves_to; simpl.
    rewrite !lookup_insert_eq. repeat split; try done.
    intros m Hm. rewrite !lookup_insert_ne by done. by rewrite Hst.
  - pose proof (detach__run D self w st vself Hst Hself Hsch_
                  (oblivious_any_call _ _ _ HD)) as Hrun.
    simpl in Hrun.
    match type of Hrun with context [redispatch D ?op ?k ?args ?w1] =>
      destruct (Hok_ w1) as (t & w2 & Hr); [by destruct w|done|];
      exists w1, (IVTensor t), w2 end.
    rewrite Hr in Hrun. eexists. split; [exact Hr|].
    split. { unfold node_at; simpl. rewrite ensure_unique_graph; simpl.
             by rewrite lookup_insert_eq. }
    split; [exact Hrun|].
    unfold committed_nodes, node_at, resolves_to; simpl.
    rewrite !ensure_unique_graph; simpl.
    rewrite !lookup_insert_eq. repeat split; try done.
    intros m Hm. rewrite !lookup_insert_ne by done. by rewrite Hst.
Qed.

Lemma detach_records_witness :
  (∃ result w', detach Fixture.D_backend 1 (Fixture.tracing_world false) = Ok result w' ∧
                resolves_to w' result = Some (NodeOutput 1 0)) ∧
  (∃ w', detach_ Fixture.D_backend 1 (Fixture.tracing_world false) = Ok 1%positive w' ∧
         resolves_to w' 1 = Some (NodeOutput 1 0)).
Proof.
  destruct (detach_records Fixture.D_backend 1 (Fixture.tracing_world false)
              (Fixture.session0 false) (GraphInput 0)
              eq_refl eq_refl eq_refl eq_refl
              FixtureFacts.D_backend_oblivious
              (FixtureFacts.D_backend_detach 1 (ex_intro _ _ eq_refl))
              (FixtureFacts.D_backend_detach_ 1 (ex_intro _ _ eq_refl)))
    as [(result & w1 & w2 & w' & _ & _ & H1 & _ & _ & _ & _ & H2)
        (w1' & r & w2' & w'' & _ & _ & H3 & _ & _ & _ & _ & H4)].
  split.
  - exists result, w'. split; [exact H1|exact H2].
  - exists w''. split; [exact H3|exact H4].
Defined.

(** ** Failure of the redispatch *)

(** C1, as stated, fails: with a live session and no kernel for the real
    execution of [aten::detach], [detach] fails with NoKernelFound and the
    node it inserted before redispatching is still committed. *)
Lemma detach_leaves_partial_node :
  no_kernel Fixture.D_empty ("aten::detach", "") [IVTensor 1] ∧
  (∃ w', detach Fixture.D_empty 1 (Fixture.tracing_world false) = Throw NoKernelFound w' ∧
         committed_nodes (Fixture.tracing_world false) = Some [] ∧
         committed_nodes w' = Some [1%positive]) ∧
  ¬ leaves_no_partial_node (detach Fixture.D_empty 1) (Fixture.tracing_world false).
Proof.
  split; [apply FixtureFacts.D_empty_no_kernel|].
  split.
  - eexists. split; [reflexivity|]. split; reflexivity.
  - intros H. specialize (H NoKernelFound _ eq_refl). discriminate H.
Qed.

(** C1, amended. Under an active session in which the tensors are bound,
    when no kernel is found for the real execution, [copy_], [detach] and
    [detach_] fail with NoKernelFound; the node each inserted before
    redispatching stays committed ([detach] and [detach_] leave it without
    an output slot), and the identity map still binds the destination to
    what it was bound to on entry. *)
Theorem failed_redispatch_keeps_node D self src nb w st vself vsrc :
  tracing_state w = Some st →
  value_map st !! self = Some vself →
  value_map st !! src = Some vsrc →
  has_schema D "aten::copy_" "" = true →
  has_schema D "aten::detach" "" = true →
  has_schema D "aten::detach_" "" = true →
  no_kernel D ("aten::copy_", "") [IVTensor self; IVTensor src; IVBool nb] →
  no_kernel D ("aten::detach", "") [IVTensor self] →
  no_kernel D ("aten::detach_", "") [IVTensor self] →
  let n := next_unique (graph st) in
  let loc := python_location w in
  (∃ w', copy_ D self src nb w = Throw NoKernelFound w' ∧
         committed_nodes w' = Some (block (graph st) ++ [n]) ∧
         node_at w' n = Some (copy_node st (heap w) self vself vsrc loc) ∧
         resolves_to w' self = Some vself) ∧
  (∃ w', detach D self w = Throw NoKernelFound w' ∧
         committed_nodes w' = Some (block (graph st) ++ [n]) ∧
         node_at w' n = Some (detach_node vself [] loc) ∧
         resolves_to w' self = Some vself) ∧
  (∃ w', detach_ D self w = Throw NoKernelFound w' ∧
         committed_nodes w' = Some (block (graph st) ++ [n]) ∧
         node_at w' n = Some (detach_node vself [] loc) ∧
         resolves_to w' self = Some vself).
Proof.
  intros Hst Hself Hsrc Hc Hd Hd_ Kc Kd Kd_ n loc.
  repeat split.
  - pose proof (copy__run D self src nb w st vself vsrc Hst Hself Hsrc Hc
                  (no_kernel_oblivious _ _ _ Kc)) as Hrun.
    simpl in Hrun. rewrite Kc in Hrun. destruct Hrun as [Hrun _].
    eexists. split; [exact Hrun|].
    unfold committed_nodes, node_at, resolves_to; simpl.
    rewrite ensure_unique_graph, ensure_unique_self; simpl.
    by rewrite lookup_insert_eq.
  - pose proof (detach_run D self w st vself Hst Hself Hd
                  (no_kernel_oblivious _ _ _ Kd)) as Hrun.
    simpl in Hrun. rewrite Kd in Hrun. destruct Hrun as [Hrun _].
    eexists. split; [exact Hrun|].
    unfold committed_nodes, node_at, resolves_to; simpl.
    by rewrite lookup_insert_eq.
  - pose proof (detach__run D self w st vself Hst Hself Hd_
                  (no_kernel_oblivious _ _ _ Kd_)) as Hrun.
    simpl in Hrun. rewrite Kd_ in Hrun. destruct Hrun as [Hrun _].
    eexists. split; [exact Hrun|].
    unfold committed_nodes, node_at, resolves_to; simpl.
    rewrite ensure_unique_graph, ensure_unique_self; simpl.
    by rewrite lookup_insert_eq.
Qed.

Lemma failed_redispatch_keeps_node_witness :
  (∃ w', copy_ Fixture.D_empty 1 2 false (Fixture.tracing_world true) = Throw NoKernelFound w' ∧
         committed_nodes w' = Some [1%positive]) ∧
  (∃ w', detach Fixture.D_empty 1 (Fixture.tracing_world true) = Throw NoKernelFound w' ∧
         committed_nodes w' = Some [1%positive]) ∧
  (∃ w', detach_ Fixture.D_empty 1 (Fixture.tracing_world true) = Throw NoKernelFound w' ∧
         committed_nodes w' = Some [1%positive]).
Proof.
  destruct (failed_redispatch_keeps_node Fixture.D_empty 1 2 false
              (Fixture.tracing_world true) (Fixture.session0 true)
              (GraphInput 0) (GraphInput 1)
              eq_refl eq_refl eq_refl eq_refl eq_refl eq_refl
              (FixtureFacts.D_empty_no_kernel _ _)
              (FixtureFacts.D_empty_no_kernel _ _)
              (FixtureFacts.D_empty_no_kernel _ _))
    as [(w1 & H1 & H1' & _) [(w2 & H2 & H2' & _) (w3 & H3 & H3' & _)]].
  split; [exists w1; split; [exact H1|exact H1']|].
  split; [exists w2; split; [exact H2|exact H2']|].
  exists w3; split; [exact H3|exact H3'].
Defined.

(** ** Source locations *)

(** C9, on the code: the node [copy_] records carries a source location only
    when it is an in-place [copy_] node; the [expand_as] node of the
    out-of-place branch is committed without one. *)
Theorem expand_as_node_lacks_source_location D self src nb w st vself vsrc :
  tracing_state w = Some st →
  value_map st !! self = Some vself →
  value_map st !! src = Some vsrc →
  has_schema D "aten::copy_" "" = true →
  trace_oblivious D →
  let n := next_unique (graph st) in
  let w' := final_world (copy_ D self src nb w) in
  ∃ nd, committed_nodes w' = Some (block (graph st) ++ [n]) ∧
        node_at w' n = Some nd ∧
        (force_outplace st = true → storage_use_count (heap w) self ≤ 1 →
           kind nd = aten_expand_as ∧ source_range nd = None) ∧
        (kind nd = aten_copy_ → source_range nd = Some (python_location w)).
Proof.
  intros Hst Hself Hsrc Hsch HD n w'.
  destruct (copy__final D self src nb w st vself vsrc Hst Hself Hsrc Hsch
              (oblivious_any_call _ _ _ HD)) as (st' & Hfin & Hg).
  exists (copy_node st (heap w) self vself vsrc (python_location w)).
  unfold committed_nodes, node_at, w'. rewrite Hfin; simpl. rewrite Hg; simpl.
  rewrite lookup_insert_eq. split; [done|]. split; [done|]. split.
  - intros Hfo Huc. unfold copy_node. rewrite Hfo.
    apply Nat.leb_le in Huc. by rewrite Huc.
  - unfold copy_node. by destruct (_ && _).
Qed.

Lemma expand_as_node_lacks_source_location_witness :
  ∃ nd, node_at (final_world (copy_ Fixture.D_backend 2 1 false (Fixture.tracing_world true))) 1
        = Some nd ∧
        kind nd = aten_expand_as ∧ source_range nd = None.
Proof.
  destruct (expand_as_node_lacks_source_location Fixture.D_backend 2 1 false
              (Fixture.tracing_world true) (Fixture.session0 true)
              (GraphInput 1) (GraphInput 0)
              eq_refl eq_refl eq_refl eq_refl FixtureFacts.D_backend_oblivious)
    as (nd & _ & Hn & Hk & _).
  exists nd. split; [exact Hn|]. apply Hk; [reflexivity|].
  vm_compute. lia.
Defined.

(** ** The out-of-place test of [copy_] *)

(** A storage viewed by two distinct live tensors has at least two
    holders. *)
Lemma shared_storage_use_count h self other :
  is_alias h self other → 2 ≤ storage_use_count h self.
Proof.
  intros (Hne & [b Hb] & Hs). unfold storage_use_count.
  rewrite Hb in Hs. destruct (tensors h !! self) as [a|] eqn:Ha; [|done].
  simpl in Hs. injection Hs as Hs. unfold use_count.
  change 2 with (length [(self, a); (other, b)]).
  apply submseteq_length, NoDup_submseteq.
  - apply NoDup_cons. split; [|apply NoDup_singleton].
    intros Hin. apply list_elem_of_singleton in Hin. congruence.
  - intros x Hx. apply list_elem_of_filter.
    apply elem_of_cons in Hx as [->|Hx]; [|apply list_elem_of_singleton in Hx as ->].
    + split; [done|]. by apply elem_of_map_to_list.
    + split; [done|]. by apply elem_of_map_to_list.
Qed.

(** C10. The out-of-place branch of [copy_] is taken exactly when the
    session prefers out-of-place recording and the storage of the
    destination has at most one holder; a destination whose storage is
    viewed by another live tensor gets a plain [copy_] node even when the
    flag is set. *)
Theorem copy__tests_storage_use_count D self src nb w st vself vsrc :
  tracing_state w = Some st →
  value_map st !! self = Some vself →
  value_map st !! src = Some vsrc →
  has_schema D "aten::copy_" "" = true →
  trace_oblivious D →
  let n := next_unique (graph st) in
  let w' := final_world (copy_ D self src nb w) in
  ∃ nd, committed_nodes w' = Some (block (graph st) ++ [n]) ∧
        node_at w' n = Some nd ∧
        (kind nd = aten_expand_as ↔
           force_outplace st = true ∧ storage_use_count (heap w) self ≤ 1) ∧
        (kind nd = aten_copy_ ↔
           force_outplace st = false ∨ 1 < storage_use_count (heap w) self) ∧
        (∀ other, is_alias (heap w) self other → kind nd = aten_copy_).
Proof.
  intros Hst Hself Hsrc Hsch HD n w'.
  destruct (copy__final D self src nb w st vself vsrc Hst Hself Hsrc Hsch
              (oblivious_any_call _ _ _ HD)) as (st' & Hfin & Hg).
  exists (copy_node st (heap w) self vself vsrc (python_location w)).
  unfold committed_nodes, node_at, w'. rewrite Hfin; simpl. rewrite Hg; simpl.
  rewrite lookup_insert_eq. split; [done|]. split; [done|].
  assert (Hk : kind (copy_node st (heap w) self vself vsrc (python_location w))
               = if force_outplace st && (storage_use_count (heap w) self <=? 1)
                 then aten_expand_as else aten_copy_).
  { unfold copy_node. by destruct (_ && _). }
  rewrite Hk. clear Hk.
  destruct (force_outplace st); simpl.
  - destruct (Nat.leb_spec (storage_use_count (heap w) self) 1) as [Hle|Hgt].
    + split; [done|]. split.
      * split; [done|]. intros [|]; [done|lia].
      * intros other Ha. apply shared_storage_use_count in Ha. lia.
    + split. { split; [done|]. intros [_ ?]. lia. }
      split; [|done]. split; [by right|done].
  - split. { split; [done|]. by intros [? _]. }
    split; [|done]. split; [by left|done].
Qed.

Lemma copy__tests_storage_use_count_witness :
  is_alias Fixture.heap0 1 3 ∧
  force_outplace (Fixture.session0 true) = true ∧
  ∃ nd, node_at (final_world (copy_ Fixture.D_backend 1 2 false (Fixture.tracing_world true))) 1
        = Some nd ∧ kind nd = aten_copy_.
Proof.
  assert (Ha : is_alias Fixture.heap0 1 3).
  { split; [done|]. split; [by eexists|reflexivity]. }
  split; [exact Ha|]. split; [reflexivity|].
  destruct (copy__tests_storage_use_count Fixture.D_backend 1 2 false
              (Fixture.tracing_world true) (Fixture.session0 true)
              (GraphInput 0) (GraphInput 1)
              eq_refl eq_refl eq_refl eq_refl FixtureFacts.D_backend_oblivious)
    as (nd & _ & Hn & _ & _ & Hk).
  exists nd. split; [exact Hn|]. exact (Hk 3%positive Ha).
Defined.

(** ** Order of the "ensure unique" step and the redispatch *)

(** C8, as stated, fails: when [copy_] and [detach_] redispatch, the binding
    of an alias of the destination has already been invalidated. *)
Lemma ensure_unique_precedes_redispatch :
  resolves_to (Fixture.tracing_world true) 3 = Some (GraphInput 2) ∧
  resolves_to (world_at_redispatch (λ D, copy_ D 1 2 false) (Fixture.tracing_world true)) 3
    = None ∧
  resolves_to (world_at_redispatch (λ D, detach_ D 1) (Fixture.tracing_world true)) 3
    = None ∧
  ¬ binds_only_after_redispatch (λ D, copy_ D 1 2 false) (Fixture.tracing_world true) ∧
  ¬ binds_only_after_redispatch (λ D, detach_ D 1) (Fixture.tracing_world true).
Proof.
  split; [reflexivity|]. split; [reflexivity|]. split; [reflexivity|].
  split; intros H; apply (f_equal (λ m, m ≫= (.!! 3%positive))) in H;
    vm_compute in H; discriminate H.
Qed.

Lemma ensure_unique_value_map h self g st :
  value_map (ensure_unique h self (set_graph g st)) = value_map (ensure_unique h self st).
Proof. unfold ensure_unique; simpl. by destruct (force_outplace st). Qed.

Lemma ensure_unique_alias h self st t :
  force_outplace st = true → is_alias h self t →
  value_map (ensure_unique h self st) !! t = None.
Proof.
  intros Hfo Ha. unfold ensure_unique. rewrite Hfo. simpl.
  apply map_lookup_filter_None. right. intros v _ Hn. by apply Hn.
Qed.

(** C8, amended. For [copy_] and [detach_] under an active session, the
    "ensure unique" step precedes the redispatch and the rebinding follows
    it: the redispatch runs, with tracer dispatch disabled, in a world whose
    identity map has already lost the bindings of the aliases of the
    destination (when the session prefers out-of-place recording) and still
    binds the destination to its value on entry; the destination is bound to
    the node's output only once the redispatch has returned, and keeps its
    binding if the redispatch fails. *)
Theorem ensure_unique_before_rebinding_after D self src nb w st vself vsrc :
  tracing_state w = Some st →
  value_map st !! self = Some vself →
  value_map st !! src = Some vsrc →
  has_schema D "aten::copy_" "" = true →
  has_schema D "aten::detach_" "" = true →
  trace_oblivious D →
  let n := next_unique (graph st) in
  (∃ w1,
     dispatch_enabled w1 = false ∧
     heap w1 = heap w ∧
     value_map <$> tracing_state w1 = Some (value_map (ensure_unique (heap w) self st)) ∧
     resolves_to w1 self = Some vself ∧
     (force_outplace st = true →
        ∀ t, is_alias (heap w) self t → resolves_to w1 t = None) ∧
     match redispatch D ("aten::copy_", "") Tracer
             [IVTensor self; IVTensor src; IVBool nb] w1 with
     | Ok _ _ => ∃ w', copy_ D self src nb w = Ok self w' ∧
                       resolves_to w' self = Some (NodeOutput n 0)
     | Throw e _ => ∃ w', copy_ D self src nb w = Throw e w' ∧
                          resolves_to w' self = Some vself
     end) ∧
  (∃ w1,
     dispatch_enabled w1 = false ∧
     heap w1 = heap w ∧
     value_map <$> tracing_state w1 = Some (value_map (ensure_unique (heap w) self st)) ∧
     resolves_to w1 self = Some vself ∧
     (force_outplace st = true →
        ∀ t, is_alias (heap w) self t → resolves_to w1 t = None) ∧
     match redispatch D ("aten::detach_", "") Tracer [IVTensor self] w1 with
     | Ok _ _ => ∃ w', detach_ D self w = Ok self w' ∧
                       resolves_to w' self = Some (NodeOutput n 0)
     | Throw e _ => ∃ w', detach_ D self w = Throw e w' ∧
                          resolves_to w' self = Some vself
     end).
Proof.
  intros Hst Hself Hsrc Hc Hd HD n. split.
  - pose proof (copy__run D self src nb w st vself vsrc Hst Hself Hsrc Hc
                  (oblivious_any_call _ _ _ HD)) as Hrun.
    simpl in Hrun.
    match type of Hrun with context [redispatch D ?op ?k ?args ?w1] => exists w1 end.
    split; [done|]. split; [by destruct w|]. unfold resolves_to; simpl.
    rewrite ensure_unique_value_map, ensure_unique_self.
    split; [done|]. split; [done|]. split.
    { intros Hfo t Ha. by apply ensure_unique_alias. }
    destruct (redispatch D _ _ _ _) as [r w2|e w2].
    + eexists. split; [exact Hrun|]. simpl. by rewrite lookup_insert_eq.
    + destruct Hrun as [Hrun Hw2]. eexists. split; [exact Hrun|]. simpl.
      rewrite Hw2. simpl. by rewrite ensure_unique_self.
  - pose proof (detach__run D self w st vself Hst Hself Hd
                  (oblivious_any_call _ _ _ HD)) as Hrun.
    simpl in Hrun.
    match type of Hrun with context [redispatch D ?op ?k ?args ?w1] => exists w1 end.
    split; [done|]. split; [by destruct w|]. unfold resolves_to; simpl.
    rewrite ensure_unique_value_map, ensure_unique_self.
    split; [done|]. split; [done|]. split.
    { intros Hfo t Ha. by apply ensure_unique_alias. }
    destruct (redispatch D _ _ _ _) as [r w2|e w2].
    + eexists. split; [exact Hrun|]. simpl. by rewrite lookup_insert_eq.
    + destruct Hrun as [Hrun Hw2]. eexists. split; [exact Hrun|]. simpl.
      rewrite Hw2. simpl. by rewrite ensure_unique_self.
Qed.

Lemma ensure_unique_before_rebinding_after_witness :
  (∃ w1, resolves_to w1 1 = Some (GraphInput 0) ∧ resolves_to w1 3 = None) ∧
  (∃ w', copy_ Fixture.D_backend 1 2 false (Fixture.tracing_world true) = Ok 1%positive w' ∧
         resolves_to w' 1 = Some (NodeOutput 1 0)).
Proof.
  destruct (ensure_unique_before_rebinding_after Fixture.D_backend 1 2 false
              (Fixture.tracing_world true) (Fixture.session0 true)
              (GraphInput 0) (GraphInput 1)
              eq_refl eq_refl eq_refl eq_refl eq_refl
              FixtureFacts.D_backend_oblivious)
    as [(w1 & Hm & Hh & Hv & Hs & Ha & Hrun) _].
  split.
  - exists w1. split; [exact Hs|]. apply Ha; [reflexivity|].
    split; [done|]. split; [by eexists|reflexivity].
  - destruct (FixtureFacts.D_backend_copy_ 1 2 false
                (ex_intro _ _ eq_refl) (ex_intro _ _ eq_refl) w1 Hh Hm)
      as (t & w2 & Hr).
    rewrite Hr in Hrun. exact Hrun.
Defined.

(** ** The tracer-disabled scope *)

Section Composition.
Context {A B : Type}.

Lemma keeps_ret (a : A) : keeps_mode (mret a).
Proof. done. Qed.

Lemma keeps_throw (e : Error) : keeps_mode (@throw A e).
Proof. done. Qed.

Lemma keeps_bind (m : M A) (f : A → M B) :
  keeps_mode m → (∀ a, keeps_mode (f a)) → keeps_mode (m ≫= f).
Proof.
  intros Hm Hf w. specialize (Hm w). unfold mbind, M_bind.
  destruct (m w) as [a w'|e w']; simpl in *; [|done].
  by rewrite Hf.
Qed.

(** The scope restores the mode whatever its body does. *)
Lemma keeps_guard (body : M A) : keeps_mode (NoTracerDispatchMode body).
Proof. intros w. unfold NoTracerDispatchMode. by destruct (body _). Qed.

Lemma same_refl (m : M A) : same m m.
Proof. done. Qed.

Lemma same_bind (m1 m2 : M A) (f1 f2 : A → M B) :
  same m1 m2 → (∀ a, same (f1 a) (f2 a)) → same (m1 ≫= f1) (m2 ≫= f2).
Proof.
  intros Hm Hf w. unfold mbind, M_bind. rewrite Hm.
  destruct (m2 w); [apply Hf|done].
Qed.

(** The scope only ever runs its body with tracer dispatch disabled. *)
Lemma same_guard (b1 b2 : M A) :
  (∀ w, dispatch_enabled w = false → b1 w = b2 w) →
  same (NoTracerDispatchMode b1) (NoTracerDispatchMode b2).
Proof. intros H w. unfold NoTracerDispatchMode. by rewrite H. Qed.
End Composition.

Lemma keeps_getTracingState : keeps_mode getTracingState.
Proof. intros w. unfold getTracingState. by destruct (tracing_state w). Qed.

Lemma keeps_putTracingState st : keeps_mode (putTracingState st).
Proof. done. Qed.

Lemma keeps_get_world : keeps_mode get_world.
Proof. done. Qed.

Lemma keeps_isTracing : keeps_mode isTracing.
Proof. done. Qed.

Lemma keeps_popIntArrayRef name : keeps_mode (popIntArrayRef name).
Proof. done. Qed.

Ltac keeps :=
  repeat first
    [ apply keeps_guard
    | apply keeps_bind
    | apply keeps_ret
    | apply keeps_throw
    | apply keeps_getTracingState
    | apply keeps_putTracingState
    | apply keeps_get_world
    | apply keeps_isTracing
    | apply keeps_popIntArrayRef
    | match goal with
      | |- keeps_mode (match ?x with _ => _ end) => destruct x
      | |- keeps_mode (if ?x then _ else _) => destruct x
      | |- ∀ _, _ => intro
      end
    | progress (unfold graph_insert, recordSourceLocation, value_node,
                  setOutput, addOutput, node_addOutput, setValueTrace,
                  delValueTrace, warn, graph_create, addInputs,
                  graph_insertNode, node_output, getValueTrace,
                  node_addInput, getNode, putNode,
                  ensureUniqueIfOutOfPlaced, findSchemaOrThrow, toTensor;
                simpl) ].

Lemma interceptors_keep_mode D self src nb size the_template mf :
  keeps_mode (copy_ D self src nb) ∧
  keeps_mode (resize_ D self size mf) ∧
  keeps_mode (resize_as_ D self the_template mf) ∧
  keeps_mode (detach D self) ∧
  keeps_mode (detach_ D self).
Proof.
  repeat split.
  - unfold copy_. keeps.
  - unfold resize_. keeps.
  - unfold resize_as_. keeps.
  - unfold detach. keeps.
  - unfold detach_. keeps.
Qed.

Lemma same_findSchemaOrThrow D1 D2 name overload :
  agree_when_disabled D1 D2 →
  same (findSchemaOrThrow D1 name overload) (findSchemaOrThrow D2 name overload).
Proof. intros [H _] w. unfold findSchemaOrThrow. by rewrite H. Qed.

Ltac extensional HA :=
  repeat first
    [ apply same_refl
    | apply (same_findSchemaOrThrow _ _ _ _ HA)
    | apply same_guard; intros ? ?; unfold mbind, M_bind;
      rewrite (proj2 HA) by assumption; reflexivity
    | apply same_bind; [|intro] ].

Lemma interceptors_extensional D1 D2 self src nb size the_template mf :
  agree_when_disabled D1 D2 →
  same (copy_ D1 self src nb) (copy_ D2 self src nb) ∧
  same (resize_ D1 self size mf) (resize_ D2 self size mf) ∧
  same (resize_as_ D1 self the_template mf) (resize_as_ D2 self the_template mf) ∧
  same (detach D1 self) (detach D2 self) ∧
  same (detach_ D1 self) (detach_ D2 self).
Proof.
  intros HA. repeat split.
  - unfold copy_. extensional HA.
  - unfold resize_. extensional HA.
  - unfold resize_as_. extensional HA.
  - unfold detach. extensional HA.
  - unfold detach_. extensional HA.
Qed.

(** While tracer dispatch is disabled, a call never resolves to the kernel
    registered under [Tracer]: resolution starts below it. *)
Lemma dispatch_skips_tracer reg op ks args w :
  dispatch_enabled w = false →
  dispatch reg op ks args w = dispatch_in reg ks [AutogradKey; BackendKey] op args w.
Proof.
  intros Hw. unfold dispatch, all_keys. simpl. rewrite Hw.
  by destruct (ks Tracer).
Qed.

(** ** The real kernel runs inside the scope *)

Ltac enter_scope :=
  unfold NoTracerDispatchMode; run;
  match goal with
  | |- context [redispatch ?D ?op ?k ?args (mkWorld ?a ?b ?c ?d ?e)] =>
      exists (mkWorld a b c d e);
      split; [reflexivity|]; split; [reflexivity|];
      split; [intros; first [reflexivity|discriminate]|];
      destruct (redispatch D op k args (mkWorld a b c d e)) as [r w2|e' w2];
      run; try reflexivity
  end.

Ltac leave_scope :=
  match goal with
  | w2 : World |- _ =>
      let E2 := fresh "E" in
      destruct (tracing_state w2) as [[g2 fo2 vm2 ws2]|] eqn:E2;
      repeat (progress (run; rewrite ?E2));
      repeat match goal with
             | |- context [all_nodes ?g !! ?n] => destruct (all_nodes g !! n); run
             end;
      done
  end.

Lemma copy__in_scope D self src nb w :
  has_schema D "aten::copy_" "" = true →
  bound_in [self; src] w →
  in_scope (copy_ D self src nb)
    (redispatch D ("aten::copy_", "") Tracer [IVTensor self; IVTensor src; IVBool nb]) w.
Proof.
  intros Hsch Hb. unfold in_scope.
  destruct w as [[st|] de sh h loc]; simpl in *.
  - destruct (Hb st self eq_refl ltac:(constructor)) as [vself Hself].
    destruct (Hb st src eq_refl ltac:(do 2 constructor)) as [vsrc Hsrc].
    destruct st as [g fo vm ws]; simpl in *.
    unfold copy_.
    destruct fo, (storage_use_count h self <=? 1) eqn:E;
      repeat (progress (run; rewrite ?E, ?Hsrc, ?Hself, ?Hsch));
      enter_scope; leave_scope.
  - unfold copy_. repeat (progress (run; rewrite ?Hsch)).
    enter_scope; leave_scope.
Qed.

Lemma resize__in_scope D self size mf w :
  has_schema D "aten::resize_" "" = true →
  in_scope (resize_ D self size mf)
    (redispatch D ("aten::resize_", "") Tracer
       [IVTensor self; IVIntList size; IVMemoryFormat mf]) w.
Proof.
  intros Hsch. unfold in_scope, resize_.
  destruct w as [[[g fo vm ws]|] de sh h loc]; simpl in *;
    repeat (progress (run; rewrite ?Hsch)); enter_scope; done.
Qed.

Lemma resize_as__in_scope D self the_template mf w :
  has_schema D "aten::resize_as_" "" = true →
  in_scope (resize_as_ D self the_template mf)
    (redispatch D ("aten::resize_as_", "") Tracer
       [IVTensor self; IVTensor the_template; IVMemoryFormat mf]) w.
Proof.
  intros Hsch. unfold in_scope, resize_as_.
  destruct w as [[[g fo vm ws]|] de sh h loc]; simpl in *;
    repeat (progress (run; rewrite ?Hsch)); enter_scope; done.
Qed.

Lemma detach_in_scope D self w :
  has_schema D "aten::detach" "" = true →
  bound_in [self] w →
  in_scope (detach D self) (redispatch D ("aten::detach", "") Tracer [IVTensor self]) w.
Proof.
  intros Hsch Hb. unfold in_scope, detach.
  destruct w as [[st|] de sh h loc]; simpl in *.
  - destruct (Hb st self eq_refl ltac:(constructor)) as [vself Hself].
    destruct st as [g fo vm ws]; simpl in *.
    repeat (progress (run; rewrite ?Hself, ?Hsch)).
    enter_scope; destruct r; run; try done; leave_scope.
  - repeat (progress (run; rewrite ?Hsch)).
    enter_scope; destruct r; run; try done; leave_scope.
Qed.

Lemma detach__in_scope D self w :
  has_schema D "aten::detach_" "" = true →
  bound_in [self] w →
  in_scope (detach_ D self) (redispatch D ("aten::detach_", "") Tracer [IVTensor self]) w.
Proof.
  intros Hsch Hb. unfold in_scope, detach_.
  destruct w as [[st|] de sh h loc]; simpl in *.
  - destruct (Hb st self eq_refl ltac:(constructor)) as [vself Hself].
    destruct st as [g fo vm ws]; simpl in *.
    destruct fo; repeat (progress (run; rewrite ?Hself, ?Hsch));
    enter_scope; leave_scope.
  - repeat (progress (run; rewrite ?Hsch)).
    enter_scope; leave_scope.
Qed.

(** Under a session, over a dispatcher that leaves the session alone, the
    graph grows by the node of the call and by nothing else. *)
Lemma oblivious_committed_nodes D self src nb size the_template mf w st :
  trace_oblivious D →
  tracing_state w = Some st →
  bound_in [self; src] w →
  let n := next_unique (graph st) in
  committed_nodes (final_world (copy_ D self src nb w)) = Some (block (graph st) ++ [n]) ∧
  committed_nodes (final_world (resize_ D self size mf w)) = Some (block (graph st)) ∧
  committed_nodes (final_world (resize_as_ D self the_template mf w))
    = Some (block (graph st)) ∧
  committed_nodes (final_world (detach D self w)) = Some (block (graph st) ++ [n]) ∧
  committed_nodes (final_world (detach_ D self w)) = Some (block (graph st) ++ [n]).
Proof.
  intros HD Hst Hb n.
  destruct (Hb st self Hst ltac:(constructor)) as [vself Hself].
  destruct (Hb st src Hst ltac:(do 2 constructor)) as [vsrc Hsrc].
  clear Hb. subst n.
  destruct w as [ts de sh h loc]; simpl in *; subst ts.
  destruct st as [g fo vm ws]; simpl in *.
  assert (∀ op args w, dispatch_enabled w = false →
            tracing_state (final_world (redispatch D op Tracer args w)) = tracing_state w)
    as HD' by (intros; by apply HD).
  unfold committed_nodes, copy_, resize_, resize_as_, detach, detach_, NoTracerDispatchMode.
  repeat split.
  - destruct fo, (storage_use_count h self <=? 1) eqn:E,
      (has_schema D "aten::copy_" "") eqn:Hsch;
      repeat (progress (run; rewrite ?E, ?Hsrc, ?Hself, ?Hsch)); try done;
      redispatch_cases (HD' ("aten::copy_", "") [IVTensor self; IVTensor src; IVBool nb]);
      done.
  - destruct (has_schema D "aten::resize_" "") eqn:Hsch;
      repeat (progress (run; rewrite ?Hsch)); try done;
      redispatch_cases (HD' ("aten::resize_", "")
                          [IVTensor self; IVIntList size; IVMemoryFormat mf]); done.
  - destruct (has_schema D "aten::resize_as_" "") eqn:Hsch;
      repeat (progress (run; rewrite ?Hsch)); try done;
      redispatch_cases (HD' ("aten::resize_as_", "")
                          [IVTensor self; IVTensor the_template; IVMemoryFormat mf]); done.
  - destruct (has_schema D "aten::detach" "") eqn:Hsch;
      repeat (progress (run; rewrite ?Hself, ?Hsch)); try done;
      redispatch_cases (HD' ("aten::detach", "") [IVTensor self]);
      try done;
      match goal with |- context [match ?a with IVTensor _ => _ | _ => _ end] =>
        destruct a end;
      repeat (progress (run; rewrite ?Hg)); done.
  - destruct fo, (has_schema D "aten::detach_" "") eqn:Hsch;
      repeat (progress (run; rewrite ?Hself, ?Hsch)); try done;
      redispatch_cases (HD' ("aten::detach_", "") [IVTensor self]); done.
Qed.

(** ** Operator calls made by the real kernel *)

(** While tracer dispatch is disabled and the kernels below [Tracer] keep it
    so, every operator call of a kernel body resolves below [Tracer]. *)
Lemma run_calls_skip_tracer reg ks calls result w :
  quiet_below reg ks →
  dispatch_enabled w = false →
  run_calls reg ks calls result w = run_calls_below reg ks calls result w.
Proof.
  intros HQ. revert w. induction calls as [|[op args] rest IH]; intros w Hw; [done|].
  cbn [run_calls run_calls_below]. unfold mbind, M_bind.
  rewrite (dispatch_skips_tracer _ _ _ _ _ Hw).
  pose proof (HQ op args w) as [Hm _]. cbv zeta in Hm.
  destruct (dispatch_in reg ks [AutogradKey; BackendKey] op args w) as [r w'|e w'];
    [|done].
  apply IH. by rewrite <- Hw.
Qed.

Lemma run_calls_below_quiet reg ks calls result w :
  quiet_below reg ks →
  tracing_state (final_world (run_calls_below reg ks calls result w)) = tracing_state w.
Proof.
  intros HQ. revert w. induction calls as [|[op args] rest IH]; intros w; [done|].
  cbn [run_calls_below]. unfold mbind, M_bind.
  pose proof (HQ op args w) as [_ Hs]. cbv zeta in Hs.
  destruct (dispatch_in reg ks [AutogradKey; BackendKey] op args w) as [r w'|e w'];
    [|done].
  by rewrite IH.
Qed.

Lemma calling_agree reg ks calls result :
  quiet_below reg ks →
  agree_when_disabled (calling reg ks calls result) (calling_below reg ks calls result).
Proof.
  intros HQ. split; [done|]. intros op k args w Hw. simpl.
  by apply run_calls_skip_tracer.
Qed.

Lemma calling_oblivious reg ks calls result :
  quiet_below reg ks → trace_oblivious (calling reg ks calls result).
Proof.
  intros HQ op k args w Hw. simpl.
  rewrite run_calls_skip_tracer by done. by apply run_calls_below_quiet.
Qed.

Module ScopeFacts.
Import Fixture.

Lemma D_backend_knows_schemas : knows_schemas D_backend.
Proof.
  intros name Hin. unfold interceptor_names in Hin.
  repeat (apply elem_of_cons in Hin as [->|Hin]); try (by apply elem_of_nil in Hin);
    reflexivity.
Qed.

Lemma tracing_world_bound outplace : bound_in [2%positive; 1%positive] (tracing_world outplace).
Proof.
  intros st t Hst Ht. injection Hst as <-.
  apply list_elem_of_In in Ht. simpl in Ht.
  destruct Ht as [<-|[<-|[]]]; by eexists.
Qed.

Lemma D_strict_agrees : agree_when_disabled D_backend D_strict.
Proof. split; [reflexivity|]. intros op k args w Hw. simpl. rewrite Hw. reflexivity. Qed.

(** The backend kernels, with the interceptors registered above them. *)
Lemma registered_backend_quiet : quiet_below (registered backend_registry) full_set.
Proof.
  intros op args w. simpl.
  rewrite !bool_decide_eq_false_2 by (by intros [_ ?]). simpl.
  unfold backend_table.
  repeat case_bool_decide; try done;
    unfold cpu_copy_, cpu_resize_, cpu_resize_as_, cpu_detach, cpu_detach_, cpu_is_leaf;
    repeat case_match; done.
Qed.

End ScopeFacts.

(** C6. In each of the five interceptors the redispatch runs inside the
    tracer-disabled scope.  The scope is entered and the real kernel is run
    in it: once the schema is found, the kernel runs in a world in which
    tracer dispatch is disabled, its failure is the failure of the call, and
    the call ends with the heap the kernel left.  The kernel is never run in
    another mode: two dispatchers that agree while tracer dispatch is
    disabled give the same outcome in every world.  The scope is released
    on every exit: the mode found on entry is back in force however the call
    ends.  While the mode is disabled a dispatch resolves below the tracing
    capability; hence the operator calls a real kernel makes, to the
    intercepted operators included, run the kernels below [Tracer], leave
    the session alone, and the graph gains the node of the interceptor and
    no other. *)
Theorem redispatch_inside_tracer_disabled_scope D1 D2 self src nb size the_template mf :
  agree_when_disabled D1 D2 →
  (∀ w, copy_ D1 self src nb w = copy_ D2 self src nb w ∧
        resize_ D1 self size mf w = resize_ D2 self size mf w ∧
        resize_as_ D1 self the_template mf w = resize_as_ D2 self the_template mf w ∧
        detach D1 self w = detach D2 self w ∧
        detach_ D1 self w = detach_ D2 self w) ∧
  (∀ w, dispatch_enabled (final_world (copy_ D1 self src nb w)) = dispatch_enabled w ∧
        dispatch_enabled (final_world (resize_ D1 self size mf w)) = dispatch_enabled w ∧
        dispatch_enabled (final_world (resize_as_ D1 self the_template mf w))
          = dispatch_enabled w ∧
        dispatch_enabled (final_world (detach D1 self w)) = dispatch_enabled w ∧
        dispatch_enabled (final_world (detach_ D1 self w)) = dispatch_enabled w) ∧
  (∀ reg op ks args w, dispatch_enabled w = false →
     dispatch reg op ks args w
     = dispatch_in reg ks [AutogradKey; BackendKey] op args w) ∧
  (∀ w, knows_schemas D1 → bound_in [self; src] w →
     in_scope (copy_ D1 self src nb)
       (redispatch D1 ("aten::copy_", "") Tracer
          [IVTensor self; IVTensor src; IVBool nb]) w ∧
     in_scope (resize_ D1 self size mf)
       (redispatch D1 ("aten::resize_", "") Tracer
          [IVTensor self; IVIntList size; IVMemoryFormat mf]) w ∧
     in_scope (resize_as_ D1 self the_template mf)
       (redispatch D1 ("aten::resize_as_", "") Tracer
          [IVTensor self; IVTensor the_template; IVMemoryFormat mf]) w ∧
     in_scope (detach D1 self)
       (redispatch D1 ("aten::detach", "") Tracer [IVTensor self]) w ∧
     in_scope (detach_ D1 self)
       (redispatch D1 ("aten::detach_", "") Tracer [IVTensor self]) w) ∧
  (∀ reg ks calls result, quiet_below reg ks →
     let K := calling reg ks calls result in
     let K' := calling_below reg ks calls result in
     trace_oblivious K ∧
     (∀ w, copy_ K self src nb w = copy_ K' self src nb w ∧
           resize_ K self size mf w = resize_ K' self size mf w ∧
           resize_as_ K self the_template mf w = resize_as_ K' self the_template mf w ∧
           detach K self w = detach K' self w ∧
           detach_ K self w = detach_ K' self w) ∧
     (∀ w st, tracing_state w = Some st → bound_in [self; src] w →
        let n := next_unique (graph st) in
        committed_nodes (final_world (copy_ K self src nb w))
          = Some (block (graph st) ++ [n]) ∧
        committed_nodes (final_world (resize_ K self size mf w))
          = Some (block (graph st)) ∧
        committed_nodes (final_world (resize_as_ K self the_template mf w))
          = Some (block (graph st)) ∧
        committed_nodes (final_world (detach K self w))
          = Some (block (graph st) ++ [n]) ∧
        committed_nodes (final_world (detach_ K self w))
          = Some (block (graph st) ++ [n]))).
Proof.
  intros HA.
  destruct (interceptors_extensional D1 D2 self src nb size the_template mf HA)
    as (E1 & E2 & E3 & E4 & E5).
  destruct (interceptors_keep_mode D1 self src nb size the_template mf)
    as (K1 & K2 & K3 & K4 & K5).
  split; [|split; [|split; [|split]]].
  - intros w. repeat split; [apply E1|apply E2|apply E3|apply E4|apply E5].
  - intros w. repeat split; [apply K1|apply K2|apply K3|apply K4|apply K5].
  - intros. by apply dispatch_skips_tracer.
  - intros w Hsch Hb.
    assert (bound_in [self] w) as Hb1.
    { intros st t Hst Ht. apply (Hb st t Hst).
      apply list_elem_of_singleton in Ht as ->. constructor. }
    split; [|split; [|split; [|split]]].
    + apply copy__in_scope; [|done]. apply (Hsch "copy_"). set_solver.
    + apply resize__in_scope. apply (Hsch "resize_"). set_solver.
    + apply resize_as__in_scope. apply (Hsch "resize_as_"). set_solver.
    + apply detach_in_scope; [|done]. apply (Hsch "detach"). set_solver.
    + apply detach__in_scope; [|done]. apply (Hsch "detach_"). set_solver.
  - intros reg ks calls result HQ K K'.
    split; [by apply calling_oblivious|]. split.
    + destruct (interceptors_extensional K K' self src nb size the_template mf
                  (calling_agree reg ks calls result HQ)) as (C1 & C2 & C3 & C4 & C5).
      intros w. repeat split; [apply C1|apply C2|apply C3|apply C4|apply C5].
    + intros w st Hst Hb.
      apply oblivious_committed_nodes; [|done..]. by apply calling_oblivious.
Qed.

(** A kernel of [aten::copy_] that calls [aten::detach], over the registry
    in which the interceptors are registered: outside the scope the inner
    call is traced, inside it is not. *)
Lemma redispatch_inside_tracer_disabled_scope_witness :
  let w := Fixture.tracing_world true in
  let reg := registered Fixture.backend_registry in
  let calls := [(aten "detach", [IVTensor 1])] in
  let K := calling reg full_set calls (IVTensor 2) in
  dispatch_enabled w = true ∧
  copy_ Fixture.D_backend 2 1 false w = copy_ Fixture.D_strict 2 1 false w ∧
  dispatch_enabled (final_world (copy_ Fixture.D_backend 2 1 false w)) = true ∧
  in_scope (copy_ Fixture.D_backend 2 1 false)
    (redispatch Fixture.D_backend ("aten::copy_", "") Tracer
       [IVTensor 2; IVTensor 1; IVBool false]) w ∧
  committed_nodes (final_world (run_calls reg full_set calls (IVTensor 2) w))
    = Some [1%positive] ∧
  committed_nodes
    (final_world (run_calls reg full_set calls (IVTensor 2) (set_dispatch_enabled false w)))
    = Some [] ∧
  trace_oblivious K ∧
  copy_ K 2 1 false w
    = copy_ (calling_below reg full_set calls (IVTensor 2)) 2 1 false w ∧
  committed_nodes (final_world (copy_ K 2 1 false w)) = Some [1%positive].
Proof.
  intros w reg calls K.
  destruct (redispatch_inside_tracer_disabled_scope Fixture.D_backend Fixture.D_strict
              2 1 false [] 1 None ScopeFacts.D_strict_agrees) as (HE & HK & _ & HS & HC).
  destruct (HC reg full_set calls (IVTensor 2) ScopeFacts.registered_backend_quiet)
    as (HO & HI & HN).
  split; [reflexivity|].
  split; [exact (proj1 (HE w))|].
  split; [exact (proj1 (HK w))|].
  split; [exact (proj1 (HS w ScopeFacts.D_backend_knows_schemas
                          (ScopeFacts.tracing_world_bound true)))|].
  split; [vm_compute; reflexivity|].
  split; [vm_compute; reflexivity|].
  split; [exact HO|].
  split; [exact (proj1 (HI w))|].
  exact (proj1 (HN w (Fixture.session0 true) eq_refl (ScopeFacts.tracing_world_bound true))).
Defined.

(** ** Without a session *)

Lemma guard_invisible {A} (body : M A) w :
  dispatch_enabled w = false →
  dispatch_enabled (final_world (body w)) = false →
  NoTracerDispatchMode body w = body w.
Proof.
  intros Hw Hb. unfold NoTracerDispatchMode. rewrite Hw.
  replace (set_dispatch_enabled false w) with w by (by destruct w; simpl in *; subst).
  destruct (body w) as [a [ts de sh h loc]|e [ts de sh h loc]];
    simpl in *; by subst.
Qed.

Ltac pass_through_tac Hsch HD Hret :=
  match goal with
  | |- pass_through ?call ?kernel ?w =>
      assert ((IVTensor <$> call) w = NoTracerDispatchMode kernel w ∧
              tracing_state (final_world (call w)) = None) as [H1 H2];
      [|split; [exact H1|split; [exact H2|]];
        intros; rewrite H1; by apply guard_invisible]
  end;
  run; rewrite ?Hsch; run; unfold NoTracerDispatchMode;
  match goal with
  | |- context [redispatch ?D ?op ?k ?args ?w1] =>
      let Hg := fresh "Hg" in
      let Hr := fresh "Hr" in
      pose proof (HD op k args w1 eq_refl) as Hg;
      destruct (redispatch D op k args w1) as [? ?|? ?] eqn:Hr;
      [apply Hret in Hr|]; run; rewrite ?Hg; run
  end.

(** C5. With no session active, each of the five interceptors is a
    pass-through to the real kernel: it returns what the kernel returns and
    leaves the world the kernel leaves, and no session exists afterwards. *)
Theorem no_session_pass_through D self src nb size the_template mf w :
  tracing_state w = None →
  has_schema D "aten::copy_" "" = true →
  has_schema D "aten::resize_" "" = true →
  has_schema D "aten::resize_as_" "" = true →
  has_schema D "aten::detach" "" = true →
  has_schema D "aten::detach_" "" = true →
  trace_oblivious D →
  returns_self D ("aten::copy_", "") self [IVTensor src; IVBool nb] →
  returns_self D ("aten::resize_", "") self [IVIntList size; IVMemoryFormat mf] →
  returns_self D ("aten::resize_as_", "") self [IVTensor the_template; IVMemoryFormat mf] →
  returns_tensor D ("aten::detach", "") [IVTensor self] →
  returns_self D ("aten::detach_", "") self [] →
  pass_through (copy_ D self src nb)
    (redispatch D ("aten::copy_", "") Tracer [IVTensor self; IVTensor src; IVBool nb]) w ∧
  pass_through (resize_ D self size mf)
    (redispatch D ("aten::resize_", "") Tracer
       [IVTensor self; IVIntList size; IVMemoryFormat mf]) w ∧
  pass_through (resize_as_ D self the_template mf)
    (redispatch D ("aten::resize_as_", "") Tracer
       [IVTensor self; IVTensor the_template; IVMemoryFormat mf]) w ∧
  pass_through (detach D self)
    (redispatch D ("aten::detach", "") Tracer [IVTensor self]) w ∧
  pass_through (detach_ D self)
    (redispatch D ("aten::detach_", "") Tracer [IVTensor self]) w.
Proof.
  intros Hst Hc Hr Hra Hd Hd_ HD Rc Rr Rra Rd Rd_.
  destruct w as [ts de sh h loc]; simpl in *; subst ts.
  split; [|split; [|split; [|split]]].
  - unfold copy_. pass_through_tac Hc HD Rc; by subst.
  - unfold resize_. pass_through_tac Hr HD Rr; by subst.
  - unfold resize_as_. pass_through_tac Hra HD Rra; by subst.
  - unfold detach. pass_through_tac Hd HD Rd; [|done].
    destruct Hr0 as [t ->]. run. rewrite ?Hg. by run.
  - unfold detach_. pass_through_tac Hd_ HD Rd_; by subst.
Qed.

Module PassThroughFacts.
Import Fixture.

Ltac kernel_returns :=
  intros w r w' H; simpl in H;
  unfold cpu_copy_, cpu_resize_, cpu_resize_as_, cpu_detach, cpu_detach_ in H;
  repeat case_match; try discriminate; injection H as <- _; eauto.

Lemma copy__returns_self self src nb :
  returns_self D_backend ("aten::copy_", "") self [IVTensor src; IVBool nb].
Proof. kernel_returns. Qed.

Lemma resize__returns_self self size mf :
  returns_self D_backend ("aten::resize_", "") self [IVIntList size; IVMemoryFormat mf].
Proof. kernel_returns. Qed.

Lemma resize_as__returns_self self tmpl mf :
  returns_self D_backend ("aten::resize_as_", "") self [IVTensor tmpl; IVMemoryFormat mf].
Proof. kernel_returns. Qed.

Lemma detach_returns_tensor self :
  returns_tensor D_backend ("aten::detach", "") [IVTensor self].
Proof. kernel_returns. Qed.

Lemma detach__returns_self self :
  returns_self D_backend ("aten::detach_", "") self [].
Proof. kernel_returns. Qed.

End PassThroughFacts.

Lemma no_session_pass_through_witness :
  (IVTensor <$> copy_ Fixture.D_backend 1 2 false) Fixture.plain_world
    = redispatch Fixture.D_backend ("aten::copy_", "") Tracer
        [IVTensor 1; IVTensor 2; IVBool false] Fixture.plain_world ∧
  (IVTensor <$> detach Fixture.D_backend 1) Fixture.plain_world
    = redispatch Fixture.D_backend ("aten::detach", "") Tracer
        [IVTensor 1] Fixture.plain_world.
Proof.
  destruct (no_session_pass_through Fixture.D_backend 1 2 false [3%Z] 2 None
              Fixture.plain_world
              eq_refl eq_refl eq_refl eq_refl eq_refl eq_refl
              FixtureFacts.D_backend_oblivious
              (PassThroughFacts.copy__returns_self _ _ _)
              (PassThroughFacts.resize__returns_self _ _ _)
              (PassThroughFacts.resize_as__returns_self _ _ _)
              (PassThroughFacts.detach_returns_tensor _)
              (PassThroughFacts.detach__returns_self _))
    as ((_ & _ & Hc) & _ & _ & (_ & _ & Hd) & _).
  split; [apply Hc|apply Hd]; reflexivity.
Defined.

(** ** Fallthrough registrations *)






(** * Further properties of the code *)

(** ** The registration block as a whole *)

Ltac block_cases H :=
  unfold TORCH_LIBRARY_IMPL_aten_Tracer, m_impl, register, aten in H;
  simpl in H;
  repeat match type of H with
         | context [table ?reg (?n, "") Tracer] =>
             let E := fresh "E" in
             destruct (table reg (n, "") Tracer) eqn:E; simpl in H
         end.

Ltac bound_name n :=
  exists n; split;
  [ solve [unfold block_names, interceptor_names, fallthrough_names; simpl;
           repeat first [by left|right]]
  | solve [unfold aten; simpl; eexists; eassumption] ].

(** X1. The block succeeds exactly when none of its thirteen operators has a
    tracing entry yet; otherwise it fails, and fails with
    DuplicateRegistration. *)
Theorem registration_block_outcome reg :
  match TORCH_LIBRARY_IMPL_aten_Tracer reg with
  | inr _ => ∀ name, name ∈ block_names → table reg (aten name) Tracer = None
  | inl e => e = DuplicateRegistration ∧
             ∃ name, name ∈ block_names ∧ is_Some (table reg (aten name) Tracer)
  end.
Proof.
  destruct (TORCH_LIBRARY_IMPL_aten_Tracer reg) as [e|reg'] eqn:H.
  - block_cases H; try discriminate H; injection H as <-; (split; [reflexivity|]).
    all: first [ bound_name "resize_" | bound_name "resize_as_" | bound_name "detach"
               | bound_name "detach_" | bound_name "copy_" | bound_name "backward"
               | bound_name "set_data" | bound_name "data" | bound_name "is_leaf"
               | bound_name "output_nr" | bound_name "_version"
               | bound_name "requires_grad_" | bound_name "retain_grad" ].
  - block_cases H; try discriminate H.
    intros name Hin. unfold block_names, interceptor_names, fallthrough_names in Hin.
    simpl in Hin.
    repeat (apply elem_of_cons in Hin as [->|Hin]); try (by apply elem_of_nil in Hin);
      assumption.
Qed.
Ltac block_inr H :=
  block_cases H; try discriminate H; injection H as <-.

(** X2. A successful run of the block changes nothing but the tracing entries of
    its thirteen operators: the schemas and every other entry of the table
    are as before. *)
Theorem registration_block_frame reg reg' :
  TORCH_LIBRARY_IMPL_aten_Tracer reg = inr reg' →
  schemas reg' = schemas reg ∧
  (∀ op k, k ≠ Tracer → table reg' op k = table reg op k) ∧
  (∀ op, (∀ name, name ∈ block_names → op ≠ aten name) →
         table reg' op Tracer = table reg op Tracer).
Proof.
  intros H. block_inr H. simpl. split; [done|]. split.
  - intros op k Hk. by rewrite !bool_decide_eq_false_2 by (by intros [_ ?]).
  - intros op Hop.
    rewrite !bool_decide_eq_false_2; [done|..];
      intros [-> _]; (eapply Hop; [|reflexivity]);
      unfold block_names, interceptor_names, fallthrough_names; simpl;
      repeat first [by left|right].
Qed.

Lemma registration_block_frame_witness :
  table (registered Fixture.backend_registry) (aten "copy_") BackendKey
  = Some (makeKernel Fixture.cpu_copy_).
Proof.
  destruct (registration_block_frame Fixture.backend_registry
              (registered Fixture.backend_registry) eq_refl) as (_ & Hk & _).
  rewrite Hk by done. reflexivity.
Defined.

(** X3. The block cannot run twice: on the registry a successful run leaves, a
    second run fails with DuplicateRegistration. *)
Theorem registration_block_not_idempotent reg reg' :
  TORCH_LIBRARY_IMPL_aten_Tracer reg = inr reg' →
  TORCH_LIBRARY_IMPL_aten_Tracer reg' = inl DuplicateRegistration.
Proof. intros H. block_inr H. reflexivity. Qed.

Lemma registration_block_not_idempotent_witness :
  TORCH_LIBRARY_IMPL_aten_Tracer (registered Fixture.backend_registry)
  = inl DuplicateRegistration.
Proof.
  exact (registration_block_not_idempotent Fixture.backend_registry
           (registered Fixture.backend_registry) eq_refl).
Defined.

(** X4. After the block, a call that carries the tracing capability, made while
    tracer dispatch is enabled, runs the interceptor of the operator, which
    redispatches among the tags below [Tracer]. *)
Theorem dispatch_reaches_interceptor reg reg' ks self src nb size the_template mf w :
  TORCH_LIBRARY_IMPL_aten_Tracer reg = inr reg' →
  ks Tracer = true →
  dispatch_enabled w = true →
  let D := tracer_dispatcher reg' ks in
  dispatch reg' (aten "copy_") ks [IVTensor self; IVTensor src; IVBool nb] w
    = (IVTensor <$> copy_ D self src nb) w ∧
  dispatch reg' (aten "resize_") ks [IVTensor self; IVIntList size; IVMemoryFormat mf] w
    = (IVTensor <$> resize_ D self size mf) w ∧
  dispatch reg' (aten "resize_as_") ks
      [IVTensor self; IVTensor the_template; IVMemoryFormat mf] w
    = (IVTensor <$> resize_as_ D self the_template mf) w ∧
  dispatch reg' (aten "detach") ks [IVTensor self] w = (IVTensor <$> detach D self) w ∧
  dispatch reg' (aten "detach_") ks [IVTensor self] w = (IVTensor <$> detach_ D self) w.
Proof.
  intros H Hks Hw D. block_inr H.
  unfold dispatch, all_keys, aten. simpl. rewrite Hks, Hw. simpl.
  repeat split; reflexivity.
Qed.

Lemma dispatch_reaches_interceptor_witness :
  dispatch (registered Fixture.backend_registry) (aten "detach_") full_set [IVTensor 1]
    (Fixture.tracing_world false)
  = (IVTensor <$> detach_ (tracer_dispatcher (registered Fixture.backend_registry) full_set) 1)
      (Fixture.tracing_world false).
Proof.
  destruct (dispatch_reaches_interceptor Fixture.backend_registry
              (registered Fixture.backend_registry) full_set 1 2 false [] 2 None
              (Fixture.tracing_world false) eq_refl eq_refl eq_refl)
    as (_ & _ & _ & _ & H).
  exact H.
Defined.
(** ** What a call can do to the session *)

Ltac open_session w st :=
  let ts := fresh "ts" in
  destruct w as [ts ?de ?sh ?h ?loc]; simpl in *; subst ts;
  destruct st as [?g ?fo ?vm ?ws]; simpl in *.

Lemma invalidate_aliases_Some h self (m : gmap positive Value) t v :
  invalidate_aliases h self m !! t = Some v → m !! t = Some v.
Proof. intros H. by apply map_lookup_filter_Some in H as [? _]. Qed.

Lemma invalidate_aliases_other h self (m : gmap positive Value) t :
  ¬ is_alias h self t → invalidate_aliases h self m !! t = m !! t.
Proof.
  intros Hn. unfold invalidate_aliases. destruct (m !! t) as [v|] eqn:Hm.
  - by apply map_lookup_filter_Some.
  - apply map_lookup_filter_None. by left.
Qed.

Ltac solve_grew :=
  unfold grew; simpl;
  split; [done|];
  split; [intros ? ?; by rewrite ?lookup_insert_ne|];
  first
    [ by left
    | right; left; by split
    | right; right; split; [done|]; split; [done|];
      eexists; split; [apply lookup_insert_eq|]; simpl; auto ].

Ltac solve_bindings_from :=
  unfold bindings_from; simpl; intros ?t ?v ?Hl;
  repeat match goal with
         | H : <[?d := _]> _ !! ?t = Some _ |- _ =>
             destruct (decide (t = d)) as [->|?];
             [rewrite lookup_insert_eq in H; injection H as <-
             |rewrite lookup_insert_ne in H by done]
         | H : invalidate_aliases _ _ _ !! _ = Some _ |- _ =>
             apply invalidate_aliases_Some in H
         end;
  first
    [ by left
    | right; split; [done|]; split; [done|]; split; [done|];
      eexists; split; [apply lookup_insert_eq|]; done ].

Ltac solve_bindings_kept :=
  unfold bindings_kept; simpl; intros ?t ?Hne ?Hal;
  rewrite ?lookup_insert_ne by done;
  rewrite ?invalidate_aliases_other by (by apply Hal);
  done.

Lemma copy__summary D self src nb w st :
  tracing_state w = Some st →
  oblivious_call D ("aten::copy_", "") [IVTensor self; IVTensor src; IVBool nb] →
  ∃ st', tracing_state (final_world (copy_ D self src nb w)) = Some st' ∧
         warnings st' = warnings st ∧ grew st st' ∧
         bindings_from st st' self ∧ bindings_kept (heap w) self self st st'.
Proof.
  intros Hst HD. open_session w st.
  unfold copy_, NoTracerDispatchMode.
  destruct fo, (storage_use_count h self <=? 1) eqn:E,
    (vm !! self) eqn:Hself, (vm !! src) eqn:Hsrc,
    (has_schema D "aten::copy_" "") eqn:Hsch;
    repeat (progress (run; rewrite ?E, ?Hsrc, ?Hself, ?Hsch));
    try redispatch_cases HD.
  all: eexists; (split; [reflexivity|]); simpl.
  all: split; [done|].
  all: split; [solve_grew|].
  all: split; [solve_bindings_from|solve_bindings_kept].
Qed.
Lemma detach_summary D self w st :
  tracing_state w = Some st →
  oblivious_call D ("aten::detach", "") [IVTensor self] →
  ∃ st', tracing_state (final_world (detach D self w)) = Some st' ∧
         warnings st' = warnings st ∧ grew st st' ∧
         match detach D self w with
         | Ok result _ =>
             bindings_from st st' result ∧
             value_map st' = <[result := NodeOutput (next_unique (graph st)) 0]> (value_map st)
         | Throw _ _ => value_map st' = value_map st
         end.
Proof.
  intros Hst HD. open_session w st.
  unfold detach, NoTracerDispatchMode.
  destruct (vm !! self) eqn:Hself, (has_schema D "aten::detach" "") eqn:Hsch;
    repeat (progress (run; rewrite ?Hself, ?Hsch));
    try redispatch_cases HD;
    try match goal with |- context [match ?a with IVTensor _ => _ | _ => _ end] =>
          destruct a; run; rewrite ?Hg; run end.
  all: eexists; (split; [reflexivity|]); simpl.
  all: split; [done|].
  all: split; [solve_grew|].
  all: try done.
  split; [solve_bindings_from|done].
Qed.

Lemma detach__summary D self w st :
  tracing_state w = Some st →
  oblivious_call D ("aten::detach_", "") [IVTensor self] →
  ∃ st', tracing_state (final_world (detach_ D self w)) = Some st' ∧
         warnings st' = warnings st ∧ grew st st' ∧
         bindings_from st st' self ∧ bindings_kept (heap w) self self st st'.
Proof.
  intros Hst HD. open_session w st.
  unfold detach_, NoTracerDispatchMode.
  destruct fo, (vm !! self) eqn:Hself, (has_schema D "aten::detach_" "") eqn:Hsch;
    repeat (progress (run; rewrite ?Hself, ?Hsch));
    try redispatch_cases HD.
  all: eexists; (split; [reflexivity|]); simpl.
  all: split; [done|].
  all: split; [solve_grew|].
  all: split; [solve_bindings_from|solve_bindings_kept].
Qed.

Lemma resize__summary D self size mf w st :
  tracing_state w = Some st →
  oblivious_call D ("aten::resize_", "")
    [IVTensor self; IVIntList size; IVMemoryFormat mf] →
  tracing_state (final_world (resize_ D self size mf w))
  = Some (mkTracingState (graph st) (force_outplace st) (delete self (value_map st))
            (warnings st ++ [("resize_", WARN_RESIZE)])).
Proof.
  intros Hst HD. open_session w st.
  unfold resize_, NoTracerDispatchMode.
  destruct (has_schema D "aten::resize_" "") eqn:Hsch;
    repeat (progress (run; rewrite ?Hsch));
    try redispatch_cases HD; done.
Qed.

Lemma resize_as__summary D self the_template mf w st :
  tracing_state w = Some st →
  oblivious_call D ("aten::resize_as_", "")
    [IVTensor self; IVTensor the_template; IVMemoryFormat mf] →
  tracing_state (final_world (resize_as_ D self the_template mf w))
  = Some (mkTracingState (graph st) (force_outplace st) (delete self (value_map st))
            (warnings st ++ [("resize_as_", WARN_RESIZE)])).
Proof.
  intros Hst HD. open_session w st.
  unfold resize_as_, NoTracerDispatchMode.
  destruct (has_schema D "aten::resize_as_" "") eqn:Hsch;
    repeat (progress (run; rewrite ?Hsch));
    try redispatch_cases HD; done.
Qed.

(** ** The trace only grows *)

Lemma grew_prefix st st' :
  grew st st' →
  block (graph st) `prefix_of` block (graph st') ∧
  length (block (graph st')) ≤ S (length (block (graph st))).
Proof.
  intros (_ & _ & [->|[[-> _]|[-> _]]]); try (split; [done|lia]).
  split; [by apply prefix_app_r|]. rewrite length_app. simpl. lia.
Qed.

(** X5. Under an active session, however a call to one of the five interceptors
    ends, the session is still live with the same prefer-outplace flag; the
    nodes committed on entry are still committed, in the same order, followed
    by at most one new node; every node other than the one allocated by the
    call is unchanged; and the warnings emitted before are still there. *)
Theorem trace_only_grows D self src nb size the_template mf w st :
  tracing_state w = Some st →
  trace_oblivious D →
  ∀ w', w' ∈ [ final_world (copy_ D self src nb w);
               final_world (resize_ D self size mf w);
               final_world (resize_as_ D self the_template mf w);
               final_world (detach D self w);
               final_world (detach_ D self w) ] →
  ∃ st', tracing_state w' = Some st' ∧
         force_outplace st' = force_outplace st ∧
         block (graph st) `prefix_of` block (graph st') ∧
         length (block (graph st')) ≤ S (length (block (graph st))) ∧
         (∀ n, n ≠ next_unique (graph st) →
            all_nodes (graph st') !! n = all_nodes (graph st) !! n) ∧
         warnings st `prefix_of` warnings st'.
Proof.
  intros Hst HD w' Hw'.
  repeat (apply elem_of_cons in Hw' as [->|Hw']); [..|by apply elem_of_nil in Hw'].
  - destruct (copy__summary D self src nb w st Hst (oblivious_any_call _ _ _ HD))
      as (st' & Hf & Hw & Hg & _).
    exists st'. destruct (grew_prefix _ _ Hg). destruct Hg as (? & ? & _).
    rewrite Hw. done.
  - rewrite (resize__summary D self size mf w st Hst (oblivious_any_call _ _ _ HD)).
    eexists. split; [reflexivity|]. simpl.
    repeat split; try done; [lia|by apply prefix_app_r].
  - rewrite (resize_as__summary D self the_template mf w st Hst
               (oblivious_any_call _ _ _ HD)).
    eexists. split; [reflexivity|]. simpl.
    repeat split; try done; [lia|by apply prefix_app_r].
  - destruct (detach_summary D self w st Hst (oblivious_any_call _ _ _ HD))
      as (st' & Hf & Hw & Hg & _).
    exists st'. destruct (grew_prefix _ _ Hg). destruct Hg as (? & ? & _).
    rewrite Hw. done.
  - destruct (detach__summary D self w st Hst (oblivious_any_call _ _ _ HD))
      as (st' & Hf & Hw & Hg & _).
    exists st'. destruct (grew_prefix _ _ Hg). destruct Hg as (? & ? & _).
    rewrite Hw. done.
Qed.
Lemma trace_only_grows_witness :
  ∃ st', tracing_state (final_world (detach Fixture.D_empty 1 (Fixture.tracing_world true)))
         = Some st' ∧
         length (block (graph st')) ≤ 1 ∧
         force_outplace st' = true.
Proof.
  destruct (trace_only_grows Fixture.D_empty 1 2 false [] 2 None
              (Fixture.tracing_world true) (Fixture.session0 true)
              eq_refl FixtureFacts.D_empty_oblivious
              (final_world (detach Fixture.D_empty 1 (Fixture.tracing_world true))))
    as (st' & Hs & Hf & _ & Hl & _).
  { do 3 right. left. }
  exists st'. split; [exact Hs|]. split; [exact Hl|exact Hf].
Defined.

(** ** Consistency of the session *)

Lemma wf_step st st' dest :
  session_wf st → grew st st' → bindings_from st st' dest → session_wf st'.
Proof.
  intros (Hfresh & Hnd & Hblk & Hval) (_ & Hold & Hg) Hb.
  set (n0 := next_unique (graph st)) in *.
  assert (Hn0 : all_nodes (graph st) !! n0 = None).
  { destruct (all_nodes (graph st) !! n0) eqn:E; [|done].
    assert (n0 < n0)%positive by (apply Hfresh; eauto). lia. }
  assert (Hnb : n0 ∉ block (graph st)).
  { intros Hin. apply Hblk in Hin as [? Hin]. congruence. }
  assert (Hfresh' : ∀ n, is_Some (all_nodes (graph st') !! n) →
                         (n < next_unique (graph st'))%positive).
  { intros n Hn. destruct Hg as [Hg|[[_ Hnx]|(_ & Hnx & _)]];
      [rewrite Hg in *; by apply Hfresh|..];
      rewrite Hnx; (destruct (decide (n = n0)) as [->|Hne]; [lia|]);
      rewrite Hold in Hn by done; apply Hfresh in Hn; fold n0 in Hn; lia. }
  assert (Hblk' : ∀ n, n ∈ block (graph st) → is_Some (all_nodes (graph st') !! n)).
  { intros n Hin. rewrite Hold; [by apply Hblk|]. intros ->. done. }
  assert (Hsub : ∀ n, n ∈ block (graph st) → n ∈ block (graph st')).
  { intros n Hin. destruct Hg as [Hg|[[Hg _]|(Hg & _)]]; rewrite Hg; try done.
    apply elem_of_app. by left. }
  split; [exact Hfresh'|]. split; [|split].
  - destruct Hg as [Hg|[[Hg _]|(Hg & _)]]; rewrite Hg; try done.
    apply NoDup_app. split; [done|]. split; [|apply NoDup_singleton].
    intros n Hin Hin'. apply list_elem_of_singleton in Hin' as ->. done.
  - intros n Hin. destruct Hg as [Hg|[[Hg _]|(Hg & _ & nd & Hnd0 & _)]].
    + rewrite Hg in *. by apply Hblk.
    + rewrite Hg in Hin. by apply Hblk'.
    + rewrite Hg in Hin. apply elem_of_app in Hin as [Hin|Hin]; [by apply Hblk'|].
      apply list_elem_of_singleton in Hin as ->. eauto.
  - intros t n k Hl. apply Hb in Hl as [Hl|(_ & Hv & Hblock & nd & Hnd0 & Hout)].
    + apply Hval in Hl as (Hin & nd & Hnd0 & Hk). split; [by apply Hsub|].
      exists nd. split; [|done]. rewrite Hold; [done|]. intros ->. done.
    + injection Hv as -> ->. split.
      * rewrite Hblock. apply elem_of_app. right. by apply list_elem_of_singleton.
      * exists nd. split; [done|]. rewrite Hout. by apply list_elem_of_singleton.
Qed.

Lemma deleted_bindings_from st g fo ws self dest :
  bindings_from st (mkTracingState g fo (delete self (value_map st)) ws) dest.
Proof.
  intros t v Hl. simpl in Hl. apply lookup_delete_Some in Hl as [_ Hl]. by left.
Qed.

(** X6. A consistent session stays consistent through a call to any of the five
    interceptors, however the call ends: node numbers stay fresh, no node is
    committed twice, and every identity bound to a node output is bound to
    an output slot that exists on a committed node. *)
Theorem interceptors_keep_session_consistent D self src nb size the_template mf w st :
  tracing_state w = Some st →
  session_wf st →
  trace_oblivious D →
  ∀ w', w' ∈ [ final_world (copy_ D self src nb w);
               final_world (resize_ D self size mf w);
               final_world (resize_as_ D self the_template mf w);
               final_world (detach D self w);
               final_world (detach_ D self w) ] →
  ∃ st', tracing_state w' = Some st' ∧ session_wf st'.
Proof.
  intros Hst Hwf HD w' Hw'.
  repeat (apply elem_of_cons in Hw' as [->|Hw']); [..|by apply elem_of_nil in Hw'].
  - destruct (copy__summary D self src nb w st Hst (oblivious_any_call _ _ _ HD))
      as (st' & Hf & _ & Hg & Hb & _).
    exists st'. split; [done|]. by eapply wf_step.
  - rewrite (resize__summary D self size mf w st Hst (oblivious_any_call _ _ _ HD)).
    eexists. split; [reflexivity|]. eapply (wf_step st _ self); [done| |].
    + split; [done|]. split; [done|]. by left.
    + apply deleted_bindings_from.
  - rewrite (resize_as__summary D self the_template mf w st Hst
               (oblivious_any_call _ _ _ HD)).
    eexists. split; [reflexivity|]. eapply (wf_step st _ self); [done| |].
    + split; [done|]. split; [done|]. by left.
    + apply deleted_bindings_from.
  - destruct (detach_summary D self w st Hst (oblivious_any_call _ _ _ HD))
      as (st' & Hf & _ & Hg & Hb).
    exists st'. split; [done|].
    destruct (detach D self w) as [result w1|e w1].
    + destruct Hb as [Hb _]. by eapply wf_step.
    + eapply (wf_step st st' self); [done|done|].
      intros t v Hl. rewrite Hb in Hl. by left.
  - destruct (detach__summary D self w st Hst (oblivious_any_call _ _ _ HD))
      as (st' & Hf & _ & Hg & Hb & _).
    exists st'. split; [done|]. by eapply wf_step.
Qed.
Lemma session0_wf outplace : session_wf (Fixture.session0 outplace).
Proof.
  split; [intros n [x Hx]; simpl in Hx; by rewrite lookup_empty in Hx|].
  split; [constructor|].
  split; [intros n Hn; by apply elem_of_nil in Hn|].
  intros t n k Hl. simpl in Hl.
  repeat (apply lookup_insert_Some in Hl as [[_ Hl]|[_ Hl]]; [done|]).
  by rewrite lookup_empty in Hl.
Qed.

Lemma interceptors_keep_session_consistent_witness :
  ∃ st', tracing_state (final_world (copy_ Fixture.D_backend 1 2 false
                                       (Fixture.tracing_world true))) = Some st' ∧
         session_wf st'.
Proof.
  exact (interceptors_keep_session_consistent Fixture.D_backend 1 2 false [] 2 None
           (Fixture.tracing_world true) (Fixture.session0 true)
           eq_refl (session0_wf true) FixtureFacts.D_backend_oblivious
           _ (list_elem_of_here _ _)).
Defined.

(** ** The identities a call leaves alone *)

(** X7. Under an active session a call changes the binding of no identity but
    its destination: [copy_] and [detach_] leave every other identity bound
    as it was, except, when the session prefers out-of-place recording, the
    aliases of the destination; [resize_] and [resize_as_] touch the
    destination only; [detach] touches the returned tensor only, and nothing
    when it fails. *)
Theorem other_identities_keep_their_binding D self src nb size the_template mf w st :
  tracing_state w = Some st →
  trace_oblivious D →
  (∀ t, t ≠ self → (force_outplace st = true → ¬ is_alias (heap w) self t) →
     resolves_to (final_world (copy_ D self src nb w)) t = resolves_to w t ∧
     resolves_to (final_world (detach_ D self w)) t = resolves_to w t) ∧
  (∀ t, t ≠ self →
     resolves_to (final_world (resize_ D self size mf w)) t = resolves_to w t ∧
     resolves_to (final_world (resize_as_ D self the_template mf w)) t = resolves_to w t) ∧
  (∀ t, match detach D self w with
        | Ok result w' => t ≠ result → resolves_to w' t = resolves_to w t
        | Throw _ w' => resolves_to w' t = resolves_to w t
        end).
Proof.
  intros Hst HD. split; [|split].
  - intros t Hne Hal.
    destruct (copy__summary D self src nb w st Hst (oblivious_any_call _ _ _ HD))
      as (st1 & Hf1 & _ & _ & _ & Hk1).
    destruct (detach__summary D self w st Hst (oblivious_any_call _ _ _ HD))
      as (st2 & Hf2 & _ & _ & _ & Hk2).
    unfold resolves_to. rewrite Hf1, Hf2, Hst. simpl.
    split; [by apply Hk1|by apply Hk2].
  - intros t Hne. unfold resolves_to.
    rewrite (resize__summary D self size mf w st Hst (oblivious_any_call _ _ _ HD)).
    rewrite (resize_as__summary D self the_template mf w st Hst
               (oblivious_any_call _ _ _ HD)).
    rewrite Hst. simpl. by rewrite lookup_delete_ne.
  - intros t.
    destruct (detach_summary D self w st Hst (oblivious_any_call _ _ _ HD))
      as (st' & Hf & _ & _ & Hb).
    unfold resolves_to. rewrite Hst. simpl.
    destruct (detach D self w) as [result w'|e w']; simpl in Hf; rewrite Hf; simpl.
    + destruct Hb as [_ ->]. intros Hne. by rewrite lookup_insert_ne.
    + by rewrite Hb.
Qed.

Lemma other_identities_keep_their_binding_witness :
  resolves_to (final_world (copy_ Fixture.D_backend 1 2 false (Fixture.tracing_world false))) 3
  = Some (GraphInput 2).
Proof.
  destruct (other_identities_keep_their_binding Fixture.D_backend 1 2 false [] 2 None
              (Fixture.tracing_world false) (Fixture.session0 false)
              eq_refl FixtureFacts.D_backend_oblivious) as (H & _ & _).
  destruct (H 3%positive) as [Hc _]; [done|discriminate|].
  rewrite Hc. reflexivity.
Defined.
(** ** What the interceptors leave to the real kernel *)

Section Frame.
Context {B : Type} (proj : World → B) (R : B → B → Prop).
Hypothesis R_refl : ∀ b, R b b.
Hypothesis R_trans : ∀ a b c, R a b → R b c → R a c.
Hypothesis proj_session : ∀ s w, proj (set_tracing_state s w) = proj w.
Hypothesis proj_mode : ∀ b w, proj (set_dispatch_enabled b w) = proj w.

Lemma steps_ret {A} (a : A) : steps proj R (mret a).
Proof using R_refl. intros w. apply R_refl. Qed.

Lemma steps_throw {A} (e : Error) : steps proj R (@throw A e).
Proof using R_refl. intros w. apply R_refl. Qed.

Lemma steps_bind {A C} (m : M A) (f : A → M C) :
  steps proj R m → (∀ a, steps proj R (f a)) → steps proj R (m ≫= f).
Proof using R_trans.
  intros Hm Hf w. specialize (Hm w). unfold mbind, M_bind.
  destruct (m w) as [a w'|e w']; simpl in *; [|done].
  eapply R_trans; [exact Hm|apply Hf].
Qed.

Lemma steps_guard {A} (body : M A) :
  steps proj R body → steps proj R (NoTracerDispatchMode body).
Proof using proj_mode.
  intros Hb w. unfold NoTracerDispatchMode.
  specialize (Hb (set_dispatch_enabled false w)). rewrite proj_mode in Hb.
  destruct (body _); simpl in *; by rewrite proj_mode.
Qed.

Lemma steps_getTracingState : steps proj R getTracingState.
Proof using R_refl. intros w. unfold getTracingState. destruct (tracing_state w); apply R_refl. Qed.

Lemma steps_putTracingState st : steps proj R (putTracingState st).
Proof using R_refl proj_session. intros w. unfold putTracingState; simpl. rewrite proj_session. apply R_refl. Qed.

Lemma steps_get_world : steps proj R get_world.
Proof using R_refl. intros w. apply R_refl. Qed.

Lemma steps_isTracing : steps proj R isTracing.
Proof using R_refl. intros w. apply R_refl. Qed.
End Frame.

Ltac frame Hr Ht Hs Hm HD :=
  repeat first
    [ apply (steps_guard _ _ Hm)
    | apply (steps_bind _ _ Ht)
    | apply (steps_ret _ _ Hr)
    | apply (steps_throw _ _ Hr)
    | apply (steps_getTracingState _ _ Hr)
    | apply (steps_putTracingState _ _ Hr Hs)
    | apply (steps_get_world _ _ Hr)
    | apply (steps_isTracing _ _ Hr)
    | apply HD
    | match goal with
      | |- steps _ _ (match ?x with _ => _ end) => destruct x
      | |- steps _ _ (if ?x then _ else _) => destruct x
      | |- ∀ _, _ => intro
      end
    | progress (unfold graph_insert, recordSourceLocation, value_node,
                  setOutput, addOutput, node_addOutput, setValueTrace,
                  delValueTrace, warn, graph_create, addInputs,
                  graph_insertNode, node_output, getValueTrace,
                  node_addInput, getNode, putNode,
                  ensureUniqueIfOutOfPlaced, findSchemaOrThrow, toTensor;
                simpl) ].

Lemma steps_popIntArrayRef (R : Heap → Heap → Prop) name :
  (∀ h, R h h) → steps heap R (popIntArrayRef name).
Proof. intros Hr w. apply Hr. Qed.

(** X8. The interceptors do nothing to the tensors themselves: whatever relation
    between the heap before and the heap after holds of every redispatched
    computation (and is reflexive and transitive) holds of each interceptor,
    however the call ends. *)
Theorem interceptors_leave_heap_to_kernel (R : Heap → Heap → Prop) D
    self src nb size the_template mf :
  (∀ h, R h h) →
  (∀ a b c, R a b → R b c → R a c) →
  (∀ op k args, steps heap R (redispatch D op k args)) →
  steps heap R (copy_ D self src nb) ∧
  steps heap R (resize_ D self size mf) ∧
  steps heap R (resize_as_ D self the_template mf) ∧
  steps heap R (detach D self) ∧
  steps heap R (detach_ D self).
Proof.
  intros Hr Ht HD.
  assert (Hs : ∀ s w, heap (set_tracing_state s w) = heap w) by done.
  assert (Hm : ∀ b w, heap (set_dispatch_enabled b w) = heap w) by done.
  repeat split.
  - unfold copy_. frame Hr Ht Hs Hm HD.
  - unfold resize_. pose proof (steps_popIntArrayRef R "size" Hr) as Hp.
    frame Hr Ht Hs Hm HD; apply Hp.
  - unfold resize_as_. frame Hr Ht Hs Hm HD.
  - unfold detach. frame Hr Ht Hs Hm HD.
  - unfold detach_. frame Hr Ht Hs Hm HD.
Qed.
Lemma D_backend_keeps_tensors op k args :
  steps heap keeps_tensors (redispatch Fixture.D_backend op k args).
Proof.
  intros w. unfold keeps_tensors. destruct k; try done. simpl.
  unfold Fixture.backend_table.
  repeat case_bool_decide; try done;
    unfold Fixture.cpu_copy_, Fixture.cpu_resize_, Fixture.cpu_resize_as_,
      Fixture.cpu_detach, Fixture.cpu_detach_, Fixture.cpu_is_leaf;
    repeat case_match; simpl; try done; rewrite dom_insert; set_solver.
Qed.

Lemma interceptors_leave_heap_to_kernel_witness :
  keeps_tensors Fixture.heap0
    (heap (final_world (detach Fixture.D_backend 1 (Fixture.tracing_world true)))).
Proof.
  destruct (interceptors_leave_heap_to_kernel keeps_tensors Fixture.D_backend
              1 2 false [] 2 None) as (_ & _ & _ & H & _).
  - intros h. unfold keeps_tensors. reflexivity.
  - intros a b c Hab Hbc. unfold keeps_tensors in *. by transitivity (dom (tensors b)).
  - exact D_backend_keeps_tensors.
  - exact (H (Fixture.tracing_world true)).
Defined.

(** X9. Only [resize_] touches the argument stash, and only under a session,
    where it takes the entry named "size" out before redispatching; the
    other interceptors leave the stash as the real kernel leaves it. *)
Theorem only_resize_pops_the_stash D self src nb size the_template mf :
  (∀ op k args, steps stash eq (redispatch D op k args)) →
  steps stash eq (copy_ D self src nb) ∧
  steps stash eq (resize_as_ D self the_template mf) ∧
  steps stash eq (detach D self) ∧
  steps stash eq (detach_ D self) ∧
  (∀ w, stash (final_world (resize_ D self size mf w))
        = match tracing_state w with
          | Some _ => delete "size" (stash w)
          | None => stash w
          end).
Proof.
  intros HD.
  assert (Hr : ∀ s : gmap string (list (option Value)), s = s) by done.
  assert (Ht : ∀ a b c : gmap string (list (option Value)), a = b → b = c → a = c)
    by (intros; congruence).
  assert (Hs : ∀ s w, stash (set_tracing_state s w) = stash w) by done.
  assert (Hm : ∀ b w, stash (set_dispatch_enabled b w) = stash w) by done.
  split; [|split; [|split; [|split]]].
  - unfold copy_. frame Hr Ht Hs Hm HD.
  - unfold resize_as_. frame Hr Ht Hs Hm HD.
  - unfold detach. frame Hr Ht Hs Hm HD.
  - unfold detach_. frame Hr Ht Hs Hm HD.
  - intros [ts de sh h loc]. unfold resize_, NoTracerDispatchMode.
    destruct ts as [st|], (has_schema D "aten::resize_" "") eqn:Hsch;
      repeat (progress (run; rewrite ?Hsch)); try done;
      match goal with
      | |- context [redispatch D ?op ?k ?args ?w1] =>
          pose proof (HD op k args w1) as Hk;
          destruct (redispatch D op k args w1); simpl in *; by rewrite <- Hk
      end.
Qed.

Lemma D_empty_keeps_stash op k args :
  steps stash eq (redispatch Fixture.D_empty op k args).
Proof. intros w. by destruct k. Qed.

Lemma only_resize_pops_the_stash_witness :
  stash (final_world (resize_ Fixture.D_empty 1 [2%Z] None
                        (set_stash {["size" := [None]]} (Fixture.tracing_world true))))
  = ∅.
Proof.
  destruct (only_resize_pops_the_stash Fixture.D_empty 1 2 false [2%Z] 2 None
              D_empty_keeps_stash) as (_ & _ & _ & _ & H).
  rewrite H. reflexivity.
Defined.

(** ** Returned values *)

Lemma returns_bind {A B} (P : B → Prop) (m : M A) (f : A → M B) :
  (∀ a, returns P (f a)) → returns P (m ≫= f).
Proof.
  intros Hf w b w' H. unfold mbind, M_bind in H.
  destruct (m w) as [a w1|e w1]; [by eapply Hf|done].
Qed.

Lemma returns_ret {A} (P : A → Prop) (a : A) : P a → returns P (mret a).
Proof. intros Ha w b w' H. injection H as <- _. done. Qed.

Ltac returns_self :=
  repeat first [ apply returns_ret; reflexivity | apply returns_bind; intro ].

(** X10. The in-place interceptors return their own first argument whenever they
    return, whatever the real kernel returned; [detach] returns the tensor
    the real kernel returned, and the heap it leaves is the one the kernel
    left. *)
Theorem returned_tensors D self src nb size the_template mf :
  returns (eq self) (copy_ D self src nb) ∧
  returns (eq self) (resize_ D self size mf) ∧
  returns (eq self) (resize_as_ D self the_template mf) ∧
  returns (eq self) (detach_ D self) ∧
  (∀ w result w', detach D self w = Ok result w' →
     ∃ w1 w2, dispatch_enabled w1 = false ∧ heap w1 = heap w ∧
              redispatch D ("aten::detach", "") Tracer [IVTensor self] w1
              = Ok (IVTensor result) w2 ∧
              heap w' = heap w2).
Proof.
  split; [|split; [|split; [|split]]].
  - unfold copy_. returns_self.
  - unfold resize_. returns_self.
  - unfold resize_as_. returns_self.
  - unfold detach_. returns_self.
  - intros [ts de sh h loc] result w'. unfold detach, NoTracerDispatchMode.
    destruct ts as [[g fo vm ws]|];
      [destruct (vm !! self) eqn:Hself|];
      (destruct (has_schema D "aten::detach" "") eqn:Hsch);
      repeat (progress (run; rewrite ?Hself, ?Hsch)); try done;
      match goal with
      | |- context [redispatch D ?op ?k ?args ?w1] =>
          destruct (redispatch D op k args w1) as [[t| | | |] w2|e w2] eqn:Hr;
          run; try done;
          destruct (tracing_state w2) as [st2|] eqn:Hw2; run; try done;
          try (destruct (all_nodes (graph st2) !! _); run; try done);
          intros H; injection H as <- <-;
          exists w1, w2; done
      end.
Qed.
(** ** Unbound tensors and unknown schemas *)

(** X11. Under an active session, an interceptor that reads the symbolic value of
    an unbound tensor fails with UnboundValue before it redispatches: the
    outcome is the same whatever the dispatcher, no node is committed, the
    identity map and the heap are untouched. *)
Theorem unbound_tensor_stops_the_call D D' self src nb w st :
  tracing_state w = Some st →
  value_map st !! self = None ∨ value_map st !! src = None →
  (∃ w', copy_ D self src nb w = Throw UnboundValue w' ∧
         copy_ D' self src nb w = Throw UnboundValue w' ∧
         committed_nodes w' = committed_nodes w ∧
         value_map <$> tracing_state w' = value_map <$> tracing_state w ∧
         heap w' = heap w) ∧
  (value_map st !! self = None →
   ∃ w', detach D self w = Throw UnboundValue w' ∧
         detach D' self w = Throw UnboundValue w' ∧
         detach_ D self w = Throw UnboundValue w' ∧
         detach_ D' self w = Throw UnboundValue w' ∧
         committed_nodes w' = committed_nodes w ∧
         value_map <$> tracing_state w' = value_map <$> tracing_state w ∧
         heap w' = heap w).
Proof.
  intros Hst Hun. open_session w st. split.
  - unfold copy_.
    destruct fo, (storage_use_count h self <=? 1) eqn:E,
      (vm !! self) eqn:Hself, (vm !! src) eqn:Hsrc;
      try (by destruct Hun);
      repeat (progress (run; rewrite ?E, ?Hsrc, ?Hself));
      eexists; done.
  - intros Hself. unfold detach, detach_.
    repeat (progress (run; rewrite ?Hself)).
    eexists; done.
Qed.

Lemma unbound_tensor_stops_the_call_witness :
  ∃ w', detach Fixture.D_backend 4 (Fixture.tracing_world true) = Throw UnboundValue w' ∧
        committed_nodes w' = Some [].
Proof.
  destruct (unbound_tensor_stops_the_call Fixture.D_backend Fixture.D_empty 4 1 false
              (Fixture.tracing_world true) (Fixture.session0 true)
              eq_refl (or_introl eq_refl)) as [_ H].
  destruct (H eq_refl) as (w' & Hd & _ & _ & _ & Hc & _).
  exists w'. split; [exact Hd|exact Hc].
Defined.

Lemma reaches_lookup_bound self src nb size the_template mf w :
  bound_in [self; src] w →
  reaches_lookup (λ D, copy_ D self src nb) w = true ∧
  reaches_lookup (λ D, resize_ D self size mf) w = true ∧
  reaches_lookup (λ D, resize_as_ D self the_template mf) w = true ∧
  reaches_lookup (λ D, detach D self) w = true ∧
  reaches_lookup (λ D, detach_ D self) w = true.
Proof.
  intros Hb. unfold reaches_lookup, copy_, resize_, resize_as_, detach, detach_.
  destruct w as [[st|] de sh h loc]; simpl in *.
  - destruct (Hb st self eq_refl ltac:(constructor)) as [vself Hself].
    destruct (Hb st src eq_refl ltac:(do 2 constructor)) as [vsrc Hsrc].
    destruct st as [g fo vm ws]; simpl in *.
    destruct fo, (storage_use_count h self <=? 1) eqn:E;
      repeat (progress (run; rewrite ?E, ?Hsrc, ?Hself)); done.
  - run. done.
Qed.

(** X12. The handle of the operator is obtained after the recording block and
    before the redispatch, and kept in a function-local static.  A call that
    finds the static uninitialised looks the schema up.  When the schema is
    unknown, the call fails with SchemaNotFound without running the real
    kernel, and the static stays uninitialised; with no session the world
    is untouched, while under a session what was recorded stays: the node of
    [copy_], [detach] and [detach_] is committed, the warning of [resize_]
    and [resize_as_] is emitted and the destination unbound.  When the
    schema is known, the static is initialised, whatever the kernel then
    does.  A call that finds the static initialised consults no schema: it
    runs the real kernel in the tracer-disabled scope even though the schema
    has been withdrawn in the meantime.  While the schema is known, the
    state of the static makes no difference to the call. *)
Theorem operator_handle_static D D' self src nb size the_template mf w :
  (∀ name overload, has_schema D name overload = false) →
  knows_schemas D' →
  bound_in [self; src] w →
  let icopy_ := λ D, copy_ D self src nb in
  let iresize_ := λ D, resize_ D self size mf in
  let iresize_as_ := λ D, resize_as_ D self the_template mf in
  let idetach := λ D, detach D self in
  let idetach_ := λ D, detach_ D self in
  (tracing_state w = None →
     static_call icopy_ D false w = Throw SchemaNotFound w ∧
     static_call iresize_ D false w = Throw SchemaNotFound w ∧
     static_call iresize_as_ D false w = Throw SchemaNotFound w ∧
     static_call idetach D false w = Throw SchemaNotFound w ∧
     static_call idetach_ D false w = Throw SchemaNotFound w) ∧
  (∀ st,
     tracing_state w = Some st →
     let n := next_unique (graph st) in
     (∃ w', static_call icopy_ D false w = Throw SchemaNotFound w' ∧
            static_call icopy_ (forgotten D') false w = Throw SchemaNotFound w' ∧
            committed_nodes w' = Some (block (graph st) ++ [n]) ∧ heap w' = heap w) ∧
     (∃ w', static_call idetach D false w = Throw SchemaNotFound w' ∧
            static_call idetach (forgotten D') false w = Throw SchemaNotFound w' ∧
            committed_nodes w' = Some (block (graph st) ++ [n]) ∧ heap w' = heap w) ∧
     (∃ w', static_call idetach_ D false w = Throw SchemaNotFound w' ∧
            static_call idetach_ (forgotten D') false w = Throw SchemaNotFound w' ∧
            committed_nodes w' = Some (block (graph st) ++ [n]) ∧ heap w' = heap w) ∧
     (∃ w', static_call iresize_ D false w = Throw SchemaNotFound w' ∧
            static_call iresize_ (forgotten D') false w = Throw SchemaNotFound w' ∧
            resolves_to w' self = None ∧ heap w' = heap w ∧
            warnings <$> tracing_state w' = Some (warnings st ++ [("resize_", WARN_RESIZE)])) ∧
     (∃ w', static_call iresize_as_ D false w = Throw SchemaNotFound w' ∧
            static_call iresize_as_ (forgotten D') false w = Throw SchemaNotFound w' ∧
            resolves_to w' self = None ∧ heap w' = heap w ∧
            warnings <$> tracing_state w'
            = Some (warnings st ++ [("resize_as_", WARN_RESIZE)]))) ∧
  (static_after icopy_ "aten::copy_" D false w = false ∧
   static_after iresize_ "aten::resize_" D false w = false ∧
   static_after iresize_as_ "aten::resize_as_" D false w = false ∧
   static_after idetach "aten::detach" D false w = false ∧
   static_after idetach_ "aten::detach_" D false w = false) ∧
  (static_after icopy_ "aten::copy_" D' false w = true ∧
   static_after iresize_ "aten::resize_" D' false w = true ∧
   static_after iresize_as_ "aten::resize_as_" D' false w = true ∧
   static_after idetach "aten::detach" D' false w = true ∧
   static_after idetach_ "aten::detach_" D' false w = true) ∧
  (in_scope (static_call icopy_ D true)
     (redispatch D ("aten::copy_", "") Tracer [IVTensor self; IVTensor src; IVBool nb]) w ∧
   in_scope (static_call iresize_ D true)
     (redispatch D ("aten::resize_", "") Tracer
        [IVTensor self; IVIntList size; IVMemoryFormat mf]) w ∧
   in_scope (static_call iresize_as_ D true)
     (redispatch D ("aten::resize_as_", "") Tracer
        [IVTensor self; IVTensor the_template; IVMemoryFormat mf]) w ∧
   in_scope (static_call idetach D true)
     (redispatch D ("aten::detach", "") Tracer [IVTensor self]) w ∧
   in_scope (static_call idetach_ D true)
     (redispatch D ("aten::detach_", "") Tracer [IVTensor self]) w) ∧
  (static_call icopy_ D' true w = static_call icopy_ D' false w ∧
   static_call iresize_ D' true w = static_call iresize_ D' false w ∧
   static_call iresize_as_ D' true w = static_call iresize_as_ D' false w ∧
   static_call idetach D' true w = static_call idetach D' false w ∧
   static_call idetach_ D' true w = static_call idetach_ D' false w).
Proof.
  intros Hsch Hsch' Hb icopy_ iresize_ iresize_as_ idetach idetach_.
  assert (bound_in [self] w) as Hb1.
  { intros st t Hst Ht. apply (Hb st t Hst).
    apply list_elem_of_singleton in Ht as ->. constructor. }
  destruct (reaches_lookup_bound self src nb size the_template mf w Hb)
    as (R1 & R2 & R3 & R4 & R5).
  assert (has_schema D' "aten::copy_" "" = true) as S1 by (apply (Hsch' "copy_"); set_solver).
  assert (has_schema D' "aten::resize_" "" = true) as S2
    by (apply (Hsch' "resize_"); set_solver).
  assert (has_schema D' "aten::resize_as_" "" = true) as S3
    by (apply (Hsch' "resize_as_"); set_solver).
  assert (has_schema D' "aten::detach" "" = true) as S4
    by (apply (Hsch' "detach"); set_solver).
  assert (has_schema D' "aten::detach_" "" = true) as S5
    by (apply (Hsch' "detach_"); set_solver).
  subst icopy_ iresize_ iresize_as_ idetach idetach_.
  split; [|split; [|split; [|split; [|split]]]].
  - intros Hst. clear R1 R2 R3 R4 R5. destruct w as [ts de sh h loc]; simpl in *; subst ts.
    unfold static_call, copy_, resize_, resize_as_, detach, detach_.
    repeat (progress (run; rewrite ?Hsch)). done.
  - intros st Hst n.
    destruct (Hb st self Hst ltac:(constructor)) as [vself Hself].
    destruct (Hb st src Hst ltac:(do 2 constructor)) as [vsrc Hsrc].
    clear R1 R2 R3 R4 R5 Hb Hb1.
    destruct w as [ts de sh h loc]; simpl in *; subst ts.
    destruct st as [g fo vm ws]; simpl in *.
    unfold static_call, forgotten, copy_, resize_, resize_as_, detach, detach_,
      committed_nodes, resolves_to.
    destruct fo, (storage_use_count h self <=? 1) eqn:E;
      repeat (progress (run; rewrite ?E, ?Hsrc, ?Hself, ?Hsch));
      repeat split; eexists; repeat split; simpl; by rewrite ?lookup_delete_eq.
  - unfold static_after. rewrite !Hsch, !andb_false_r. done.
  - unfold static_after. rewrite R1, R2, R3, R4, R5, S1, S2, S3, S4, S5. done.
  - repeat split.
    + exact (copy__in_scope (cached D) self src nb w eq_refl Hb).
    + exact (resize__in_scope (cached D) self size mf w eq_refl).
    + exact (resize_as__in_scope (cached D) self the_template mf w eq_refl).
    + exact (detach_in_scope (cached D) self w eq_refl Hb1).
    + exact (detach__in_scope (cached D) self w eq_refl Hb1).
  - unfold static_call, copy_, resize_, resize_as_, detach, detach_, findSchemaOrThrow.
    simpl. rewrite S1, S2, S3, S4, S5. done.
Qed.

Lemma operator_handle_static_witness :
  let w := Fixture.tracing_world true in
  let idetach := λ D, detach D 1 in
  (∃ w', static_call idetach (forgotten Fixture.D_backend) false w
         = Throw SchemaNotFound w' ∧
         committed_nodes w' = Some [1%positive]) ∧
  static_after idetach "aten::detach" (forgotten Fixture.D_backend) false w = false ∧
  static_after idetach "aten::detach" Fixture.D_backend false w = true ∧
  in_scope (static_call idetach (forgotten Fixture.D_backend) true)
    (redispatch Fixture.D_backend ("aten::detach", "") Tracer [IVTensor 1]) w ∧
  (∃ w', static_call idetach (forgotten Fixture.D_backend) true w = Ok 4%positive w').
Proof.
  intros w idetach.
  destruct (operator_handle_static (forgotten Fixture.D_backend)
              Fixture.D_backend 1 2 false [] 2 None w (λ _ _, eq_refl)
              ScopeFacts.D_backend_knows_schemas)
    as (_ & HB & HF & HT & HS & _).
  { intros st t Hst Ht. injection Hst as <-.
    apply list_elem_of_In in Ht. simpl in Ht.
    destruct Ht as [<-|[<-|[]]]; by eexists. }
  destruct (HB (Fixture.session0 true) eq_refl) as (_ & (w' & Hd & _ & Hc & _) & _).
  split; [exists w'; split; [exact Hd|exact Hc]|].
  split; [exact (proj1 (proj2 (proj2 (proj2 HF))))|].
  split; [exact (proj1 (proj2 (proj2 (proj2 HT))))|].
  split; [exact (proj1 (proj2 (proj2 (proj2 HS))))|].
  eexists. vm_compute. reflexivity.
Defined.

(** ** Calls in sequence *)

Ltac ok_case Hrun H :=
  match type of Hrun with
  | context [redispatch ?D ?op ?k ?args ?w1] =>
      destruct (redispatch D op k args w1) as [[?t| | | |] ?wk|?e ?wk];
      try (apply proj1 in Hrun);
      rewrite Hrun in H; try discriminate H;
      injection H as <- <-
  end.

(** X13. The result of a traced [detach] can be detached again: the two nodes are
    committed in order, and the input of the second is the output of the
    first. *)
Theorem detach_of_detached_is_chained D self w st vself t1 w1 t2 w2 :
  tracing_state w = Some st →
  value_map st !! self = Some vself →
  has_schema D "aten::detach" "" = true →
  trace_oblivious D →
  detach D self w = Ok t1 w1 →
  detach D t1 w1 = Ok t2 w2 →
  let n1 := next_unique (graph st) in
  let n2 := Pos.succ n1 in
  committed_nodes w2 = Some (block (graph st) ++ [n1; n2]) ∧
  inputs <$> node_at w2 n1 = Some [(Some "self", vself)] ∧
  inputs <$> node_at w2 n2 = Some [(Some "self", NodeOutput n1 0)] ∧
  resolves_to w2 t2 = Some (NodeOutput n2 0) ∧
  (t1 ≠ t2 → resolves_to w2 t1 = Some (NodeOutput n1 0)).
Proof.
  intros Hst Hself Hsch HD H1 H2 n1 n2.
  pose proof (detach_run D self w st vself Hst Hself Hsch
                (oblivious_any_call _ _ _ HD)) as Hrun1.
  simpl in Hrun1. ok_case Hrun1 H1.
  match type of H2 with detach _ _ ?w1 = _ =>
    pose proof (λ st1 v H H', detach_run D t w1 st1 v H H' Hsch
                                (oblivious_any_call _ _ _ HD)) as Hrun2 end.
  simpl in Hrun2.
  specialize (Hrun2 _ _ eq_refl (lookup_insert_eq _ _ _)).
  simpl in Hrun2. ok_case Hrun2 H2.
  unfold committed_nodes, node_at, resolves_to; simpl.
  fold n1. fold n2.
  assert (n1 ≠ n2) by (unfold n2; lia).
  rewrite <- !(assoc_L (++)). simpl.
  rewrite !lookup_insert_eq. rewrite !lookup_insert_ne by done.
  rewrite !lookup_insert_eq.
  repeat split; try done.
  intros Hne. by rewrite lookup_insert_ne, lookup_insert_eq.
Qed.

(** X14. An in-place [copy_] followed by an in-place [detach_] of the same
    destination: the [detach_] node takes the output of the [copy_] node as
    its input, and the destination ends bound to the output of the second
    node. *)
Theorem detach__after_copy__is_chained D self src nb w st vself vsrc t1 w1 t2 w2 :
  tracing_state w = Some st →
  value_map st !! self = Some vself →
  value_map st !! src = Some vsrc →
  has_schema D "aten::copy_" "" = true →
  has_schema D "aten::detach_" "" = true →
  trace_oblivious D →
  copy_ D self src nb w = Ok t1 w1 →
  detach_ D self w1 = Ok t2 w2 →
  let n1 := next_unique (graph st) in
  let n2 := Pos.succ n1 in
  committed_nodes w2 = Some (block (graph st) ++ [n1; n2]) ∧
  inputs <$> node_at w2 n2 = Some [(Some "self", NodeOutput n1 0)] ∧
  outputs <$> node_at w2 n1 = Some [NodeOutput n1 0] ∧
  resolves_to w2 self = Some (NodeOutput n2 0).
Proof.
  intros Hst Hself Hsrc Hc Hd HD H1 H2 n1 n2.
  pose proof (copy__run D self src nb w st vself vsrc Hst Hself Hsrc Hc
                (oblivious_any_call _ _ _ HD)) as Hrun1.
  simpl in Hrun1.
  match type of Hrun1 with
  | context [redispatch ?D ?op ?k ?args ?w1] =>
      destruct (redispatch D op k args w1) as [? ?wk|?e ?wk];
      try (apply proj1 in Hrun1);
      rewrite Hrun1 in H1; try discriminate H1;
      injection H1 as <- <-
  end.
  match type of H2 with detach_ _ _ ?w1 = _ =>
    pose proof (λ st1 v H H', detach__run D self w1 st1 v H H' Hd
                                (oblivious_any_call _ _ _ HD)) as Hrun2 end.
  simpl in Hrun2.
  specialize (Hrun2 _ _ eq_refl (lookup_insert_eq _ _ _)).
  simpl in Hrun2.
  match type of Hrun2 with
  | context [redispatch ?D ?op ?k ?args ?w1] =>
      destruct (redispatch D op k args w1) as [? ?wk|?e ?wk];
      try (apply proj1 in Hrun2);
      rewrite Hrun2 in H2; try discriminate H2;
      injection H2 as <- <-
  end.
  unfold committed_nodes, node_at, resolves_to; simpl.
  repeat (rewrite ensure_unique_graph; simpl).
  fold n1. fold n2.
  assert (n1 ≠ n2) by (unfold n2; lia).
  rewrite <- !(assoc_L (++)). simpl.
  rewrite !lookup_insert_eq. rewrite !lookup_insert_ne by done.
  rewrite !lookup_insert_eq.
  repeat split; try done.
  unfold copy_node. by destruct (_ && _).
Qed.
Lemma detach_of_detached_is_chained_witness :
  committed_nodes
    (final_world
       (detach Fixture.D_backend 4
          (final_world (detach Fixture.D_backend 1 (Fixture.tracing_world false)))))
  = Some [1%positive; 2%positive].
Proof.
  assert (H1 : detach Fixture.D_backend 1 (Fixture.tracing_world false)
               = Ok 4%positive
                   (final_world (detach Fixture.D_backend 1 (Fixture.tracing_world false))))
    by (vm_compute; reflexivity).
  assert (H2 : detach Fixture.D_backend 4
                 (final_world (detach Fixture.D_backend 1 (Fixture.tracing_world false)))
               = Ok 5%positive
                   (final_world
                      (detach Fixture.D_backend 4
                         (final_world (detach Fixture.D_backend 1
                                         (Fixture.tracing_world false))))))
    by (vm_compute; reflexivity).
  destruct (detach_of_detached_is_chained Fixture.D_backend 1
              (Fixture.tracing_world false) (Fixture.session0 false) (GraphInput 0)
              _ _ _ _
              eq_refl eq_refl eq_refl FixtureFacts.D_backend_oblivious H1 H2)
    as (H & _).
  exact H.
Defined.

Lemma detach__after_copy__is_chained_witness :
  resolves_to
    (final_world
       (detach_ Fixture.D_backend 1
          (final_world (copy_ Fixture.D_backend 1 2 false (Fixture.tracing_world false)))))
    1
  = Some (NodeOutput 2 0).
Proof.
  assert (H1 : copy_ Fixture.D_backend 1 2 false (Fixture.tracing_world false)
               = Ok 1%positive
                   (final_world (copy_ Fixture.D_backend 1 2 false
                                   (Fixture.tracing_world false))))
    by (vm_compute; reflexivity).
  assert (H2 : detach_ Fixture.D_backend 1
                 (final_world (copy_ Fixture.D_backend 1 2 false
                                 (Fixture.tracing_world false)))
               = Ok 1%positive
                   (final_world
                      (detach_ Fixture.D_backend 1
                         (final_world (copy_ Fixture.D_backend 1 2 false
                                         (Fixture.tracing_world false))))))
    by (vm_compute; reflexivity).
  destruct (detach__after_copy__is_chained Fixture.D_backend 1 2 false
              (Fixture.tracing_world false) (Fixture.session0 false)
              (GraphInput 0) (GraphInput 1) _ _ _ _
              eq_refl eq_refl eq_refl eq_refl eq_refl
              FixtureFacts.D_backend_oblivious H1 H2)
    as (_ & _ & _ & H).
  exact H.
Defined.
(** X15. A tensor resized under a session is unbound, and stays unusable by the
    recording interceptors: a following [detach], [detach_] or [copy_] that
    reads it, as destination or as source, fails with UnboundValue and
    commits nothing. *)
Theorem resized_tensor_cannot_be_recorded D self other nb size the_template mf w st t w1 :
  tracing_state w = Some st →
  trace_oblivious D →
  resize_ D self size mf w = Ok t w1 ∨ resize_as_ D self the_template mf w = Ok t w1 →
  committed_nodes w1 = committed_nodes w ∧
  ∀ r, r ∈ [ detach D self w1; detach_ D self w1;
             copy_ D self other nb w1; copy_ D other self nb w1 ] →
       ∃ w2, r = Throw UnboundValue w2 ∧ committed_nodes w2 = committed_nodes w.
Proof.
  intros Hst HD Hr.
  assert (Hw1 : ∃ ws', tracing_state w1
                       = Some (mkTracingState (graph st) (force_outplace st)
                                 (delete self (value_map st)) ws')).
  { destruct Hr as [Hr|Hr].
    - pose proof (resize__summary D self size mf w st Hst
                    (oblivious_any_call _ _ _ HD)) as Hs.
      rewrite Hr in Hs. eauto.
    - pose proof (resize_as__summary D self the_template mf w st Hst
                    (oblivious_any_call _ _ _ HD)) as Hs.
      rewrite Hr in Hs. eauto. }
  destruct Hw1 as [ws' Hw1]. clear Hr.
  assert (Hc : committed_nodes w = Some (block (graph st))).
  { unfold committed_nodes. by rewrite Hst. }
  rewrite Hc. clear Hc Hst. split.
  { unfold committed_nodes. by rewrite Hw1. }
  destruct w1 as [ts de sh h loc]; simpl in *; subst ts.
  destruct st as [g fo vm ws]; simpl in *.
  intros r Hin.
  repeat (apply elem_of_cons in Hin as [->|Hin]); [..|by apply elem_of_nil in Hin].
  - unfold detach. run. rewrite lookup_delete_eq. run. eexists; done.
  - unfold detach_. run. rewrite lookup_delete_eq. run. eexists; done.
  - unfold copy_.
    destruct fo, (storage_use_count h self <=? 1) eqn:E,
      (delete self vm !! other) eqn:Ho;
      repeat (progress (run; rewrite ?E, ?Ho, ?lookup_delete_eq));
      eexists; done.
  - unfold copy_.
    destruct fo, (storage_use_count h other <=? 1) eqn:E,
      (delete self vm !! other) eqn:Ho;
      repeat (progress (run; rewrite ?E, ?Ho, ?lookup_delete_eq));
      eexists; done.
Qed.

Lemma resized_tensor_cannot_be_recorded_witness :
  ∃ w2, detach Fixture.D_backend 1
          (final_world (resize_ Fixture.D_backend 1 [5%Z] None (Fixture.tracing_world true)))
        = Throw UnboundValue w2.
Proof.
  assert (H1 : resize_ Fixture.D_backend 1 [5%Z] None (Fixture.tracing_world true)
               = Ok 1%positive
                   (final_world (resize_ Fixture.D_backend 1 [5%Z] None
                                   (Fixture.tracing_world true))))
    by (vm_compute; reflexivity).
  destruct (resized_tensor_cannot_be_recorded Fixture.D_backend 1 2 false [5%Z] 2 None
              (Fixture.tracing_world true) (Fixture.session0 true) _ _
              eq_refl FixtureFacts.D_backend_oblivious (or_introl H1)) as [_ H].
  destruct (H _ (list_elem_of_here _ _)) as (w2 & Hw2 & _).
  exists w2. exact Hw2.
Defined.

(** ** Sessions that start or stop during the redispatch *)

(** X16. The interceptors test for a session twice, before and after the
    redispatch, and keep the node or value to finalize in a pointer that is
    null unless the first test succeeded.  If no session was live on entry
    and one is live when the real kernel returns, [copy_], [detach] and
    [detach_] dereference that null pointer after the kernel has run, while
    [resize_] and [resize_as_], which have no second test, return
    normally. *)
Theorem session_opened_during_redispatch D self src nb size the_template mf w :
  tracing_state w = None →
  (∀ name, has_schema D name "" = true) →
  (∀ op args w1, ∃ t w2, redispatch D op Tracer args w1 = Ok (IVTensor t) w2 ∧
                         is_Some (tracing_state w2)) →
  (∃ w', copy_ D self src nb w = Throw NullPointer w') ∧
  (∃ w', detach D self w = Throw NullPointer w') ∧
  (∃ w', detach_ D self w = Throw NullPointer w') ∧
  (∃ w', resize_ D self size mf w = Ok self w') ∧
  (∃ w', resize_as_ D self the_template mf w = Ok self w').
Proof.
  intros Hst Hsch HD.
  destruct w as [ts de sh h loc]; simpl in *; subst ts.
  unfold copy_, detach, detach_, resize_, resize_as_, NoTracerDispatchMode.
  repeat (progress (run; rewrite ?Hsch)).
  repeat split;
    match goal with
    | |- context [redispatch D ?op ?k ?args ?w1] =>
        destruct (HD op args w1) as (t & w2 & -> & [st2 Hw2])
    end; run; rewrite ?Hw2; run; eexists; done.
Qed.

Lemma session_opened_during_redispatch_witness :
  ∃ w', detach session_opening 1 Fixture.plain_world = Throw NullPointer w'.
Proof.
  destruct (session_opened_during_redispatch session_opening 1 2 false [] 2 None
              Fixture.plain_world eq_refl (λ _, eq_refl)) as (_ & H & _).
  - intros op args w1. exists 1%positive. eexists. split; [reflexivity|]. by eexists.
  - exact H.
Defined.
(** ** The out-of-place branch and the views of the destination *)

(** A live tensor that shares its storage with no other live tensor is the
    only holder of it. *)
Lemma sole_view_use_count h self :
  is_Some (tensors h !! self) →
  (∀ t, ¬ is_alias h self t) →
  storage_use_count h self = 1.
Proof.
  intros [a Ha] Hno. unfold storage_use_count. rewrite Ha. unfold use_count.
  set (l := filter _ _).
  assert (Hin : (self, a) ∈ l).
  { apply list_elem_of_filter. split; [done|]. by apply elem_of_map_to_list. }
  assert (Hall : ∀ x, x ∈ l → x = (self, a)).
  { intros [t b] Hx. apply list_elem_of_filter in Hx as [Hs Hx]. simpl in Hs.
    apply elem_of_map_to_list in Hx.
    destruct (decide (t = self)) as [->|Hne]; [congruence|].
    exfalso. apply (Hno t). split; [done|]. split; [by eexists|].
    rewrite Hx, Ha. simpl. by rewrite Hs. }
  assert (Hnd : NoDup l).
  { apply NoDup_filter, NoDup_map_to_list. }
  destruct l as [|x [|y l']].
  - by apply elem_of_nil in Hin.
  - done.
  - exfalso. apply NoDup_cons in Hnd as [Hx _]. apply Hx.
    rewrite (Hall x) by left. rewrite (Hall y) by (right; left). left.
Qed.

(** X17. For a live destination, [copy_] records the out-of-place [expand_as]
    node exactly when the session prefers out-of-place recording and no
    other live tensor views the storage of the destination ("if you have no
    views of self"). *)
Theorem expand_as_iff_no_views D self src nb w st vself vsrc :
  tracing_state w = Some st →
  value_map st !! self = Some vself →
  value_map st !! src = Some vsrc →
  has_schema D "aten::copy_" "" = true →
  trace_oblivious D →
  is_Some (tensors (heap w) !! self) →
  ∃ nd, node_at (final_world (copy_ D self src nb w)) (next_unique (graph st)) = Some nd ∧
        (kind nd = aten_expand_as ↔
           force_outplace st = true ∧ ∀ t, ¬ is_alias (heap w) self t).
Proof.
  intros Hst Hself Hsrc Hsch HD Hlive.
  destruct (copy__final D self src nb w st vself vsrc Hst Hself Hsrc Hsch
              (oblivious_any_call _ _ _ HD)) as (st' & Hfin & Hg).
  exists (copy_node st (heap w) self vself vsrc (python_location w)).
  unfold node_at. rewrite Hfin; simpl. rewrite Hg; simpl.
  rewrite lookup_insert_eq. split; [done|].
  unfold copy_node. destruct (force_outplace st); simpl.
  - destruct (Nat.leb_spec (storage_use_count (heap w) self) 1) as [Hle|Hgt]; simpl.
    + split; [|done]. intros _. split; [done|].
      intros t Ha. apply shared_storage_use_count in Ha. lia.
    + split; [done|]. intros [_ Hno].
      rewrite (sole_view_use_count _ _ Hlive Hno) in Hgt. lia.
  - split; [done|]. by intros [? _].
Qed.

Lemma expand_as_iff_no_views_witness :
  ∃ nd, node_at (final_world (copy_ Fixture.D_backend 2 1 false (Fixture.tracing_world true))) 1
        = Some nd ∧
        (kind nd = aten_expand_as ↔ true = true ∧ ∀ t, ¬ is_alias Fixture.heap0 2 t).
Proof.
  exact (expand_as_iff_no_views Fixture.D_backend 2 1 false (Fixture.tracing_world true)
           (Fixture.session0 true) (GraphInput 1) (GraphInput 0)
           eq_refl eq_refl eq_refl eq_refl FixtureFacts.D_backend_oblivious
           (ex_intro _ _ eq_refl)).
Defined.

(** ** The failures a call can end with *)

Ltac failure_cases HD :=
  match goal with
  | |- context [redispatch ?D ?op ?k ?args ?w1] =>
      let Hg := fresh "Hg" in
      let Hr := fresh "Hr" in
      pose proof (HD op k args w1 eq_refl) as Hg;
      destruct (redispatch D op k args w1) as [? ?|? ?] eqn:Hr;
      run; rewrite ?Hg; run
  end.

Ltac expected :=
  intros ?e ?w' ?H; try done; injection H as <- _;
  first [ by left | by right; left
        | right; right; do 2 eexists; split; [|eassumption]; reflexivity ].

(** X18. Whatever the world on entry, a call to an in-place interceptor can only
    fail with UnboundValue, with SchemaNotFound, or with the failure of the
    real kernel, which was run with tracer dispatch disabled; the same holds
    of [detach] when the real kernel returns tensors.  In particular no
    internal assertion of the tracer fails and no null pointer is
    dereferenced. *)
Theorem only_expected_failures D self src nb size the_template mf w :
  trace_oblivious D →
  returns_tensor D ("aten::detach", "") [IVTensor self] →
  (∀ e w', copy_ D self src nb w = Throw e w' →
     expected_failure D ("aten::copy_", "") [IVTensor self; IVTensor src; IVBool nb] e) ∧
  (∀ e w', resize_ D self size mf w = Throw e w' →
     expected_failure D ("aten::resize_", "")
       [IVTensor self; IVIntList size; IVMemoryFormat mf] e) ∧
  (∀ e w', resize_as_ D self the_template mf w = Throw e w' →
     expected_failure D ("aten::resize_as_", "")
       [IVTensor self; IVTensor the_template; IVMemoryFormat mf] e) ∧
  (∀ e w', detach D self w = Throw e w' →
     expected_failure D ("aten::detach", "") [IVTensor self] e) ∧
  (∀ e w', detach_ D self w = Throw e w' →
     expected_failure D ("aten::detach_", "") [IVTensor self] e).
Proof.
  intros HD Hten. unfold expected_failure.
  destruct w as [ts de sh h loc]. destruct ts as [[g fo vm ws]|].
  - split; [|split; [|split; [|split]]].
    + unfold copy_, NoTracerDispatchMode.
      destruct fo, (storage_use_count h self <=? 1) eqn:E,
        (vm !! self) eqn:Hself, (vm !! src) eqn:Hsrc,
        (has_schema D "aten::copy_" "") eqn:Hsch;
        repeat (progress (run; rewrite ?E, ?Hsrc, ?Hself, ?Hsch));
        try failure_cases HD; expected.
    + unfold resize_, NoTracerDispatchMode.
      destruct (has_schema D "aten::resize_" "") eqn:Hsch;
        repeat (progress (run; rewrite ?Hsch));
        try failure_cases HD; expected.
    + unfold resize_as_, NoTracerDispatchMode.
      destruct (has_schema D "aten::resize_as_" "") eqn:Hsch;
        repeat (progress (run; rewrite ?Hsch));
        try failure_cases HD; expected.
    + unfold detach, NoTracerDispatchMode.
      destruct (vm !! self) eqn:Hself, (has_schema D "aten::detach" "") eqn:Hsch;
        repeat (progress (run; rewrite ?Hself, ?Hsch));
        try failure_cases HD;
        try (match goal with Hr : redispatch _ _ _ _ _ = Ok _ _ |- _ =>
               destruct (Hten _ _ _ Hr) as [t ->] end; run; rewrite ?Hg; run);
        expected.
    + unfold detach_, NoTracerDispatchMode.
      destruct fo, (vm !! self) eqn:Hself, (has_schema D "aten::detach_" "") eqn:Hsch;
        repeat (progress (run; rewrite ?Hself, ?Hsch));
        try failure_cases HD; expected.
  - split; [|split; [|split; [|split]]].
    + unfold copy_, NoTracerDispatchMode.
      destruct (has_schema D "aten::copy_" "") eqn:Hsch;
        repeat (progress (run; rewrite ?Hsch));
        try failure_cases HD; expected.
    + unfold resize_, NoTracerDispatchMode.
      destruct (has_schema D "aten::resize_" "") eqn:Hsch;
        repeat (progress (run; rewrite ?Hsch));
        try failure_cases HD; expected.
    + unfold resize_as_, NoTracerDispatchMode.
      destruct (has_schema D "aten::resize_as_" "") eqn:Hsch;
        repeat (progress (run; rewrite ?Hsch));
        try failure_cases HD; expected.
    + unfold detach, NoTracerDispatchMode.
      destruct (has_schema D "aten::detach" "") eqn:Hsch;
        repeat (progress (run; rewrite ?Hsch));
        try failure_cases HD;
        try (match goal with Hr : redispatch _ _ _ _ _ = Ok _ _ |- _ =>
               destruct (Hten _ _ _ Hr) as [t ->] end; run; rewrite ?Hg; run);
        expected.
    + unfold detach_, NoTracerDispatchMode.
      destruct (has_schema D "aten::detach_" "") eqn:Hsch;
        repeat (progress (run; rewrite ?Hsch));
        try failure_cases HD; expected.
Qed.
Lemma D_empty_returns_tensor op args : returns_tensor Fixture.D_empty op args.
Proof. intros w r w' H. discriminate H. Qed.

Lemma only_expected_failures_witness :
  expected_failure Fixture.D_empty ("aten::copy_", "")
    [IVTensor 1; IVTensor 2; IVBool false] NoKernelFound.
Proof.
  destruct (only_expected_failures Fixture.D_empty 1 2 false [] 2 None
              (Fixture.tracing_world true)
              FixtureFacts.D_empty_oblivious (D_empty_returns_tensor _ _)) as (H & _).
  apply (H NoKernelFound
           (final_world (copy_ Fixture.D_empty 1 2 false (Fixture.tracing_world true)))).
  vm_compute. reflexivity.
Defined.
